(** * A Consul-style KV API on Deno KV: model of [src/main.ts] and its properties

    The program is a Hono application with six handlers that matter here
    (session create / renew / destroy, KV get / put / delete) over two pieces
    of shared state: the Deno KV store [kv] and the module variable
    [consulIndex].  Each handler is embedded as a function from the request
    and the store before it to the response and the store after it.

    Conventions of the embedding.
    - JavaScript numbers that count (the index, [createIndex], [modifyIndex],
      [lockIndex]) are [Z]; a number that comes out of [parseInt] is a
      [number], which adds [NaN].  Doubles are exact on integers of magnitude
      up to 2^53, the range in which the model speaks; beyond it JavaScript
      rounds and this model does not.
    - A string is the sequence of bytes of its UTF-8 encoding.
    - A query parameter ([c.req.query]) is an [option string]: [None] is
      [undefined].  Truthiness of a string is non-emptiness.
    - The store holds keys [['sessions', id]] and [['kv', key]]; the two key
      spaces are the two finite maps of [Store].
    - Deno KV refuses a key or a value that is too large: [kv.get],
      [kv.set] and [kv.delete] then throw, and Hono answers 500.  What the
      store accepts is a parameter of the model ([Limits]); a [Store] holds
      only what the store has accepted.
    - [crypto.randomUUID()] and [new Date()] are inputs of the handler that
      calls them ([uuid], [now]); the ISO string of a date is represented by
      the instant it denotes, in milliseconds.
    - A handler runs from its first line to its response without another
      handler's writes in between; the one place where the program waits on
      a timer is modelled apart ([kv_get_across]). *)

From Stdlib Require Import ZArith NArith String Ascii List Lia.
From Stdlib Require Import DecimalString DecimalZ.
From stdpp Require Import base option strings list gmap fin_maps proof_irrel.

Local Open Scope string_scope.
Local Open Scope Z_scope.

(** ** JavaScript primitives used by the handlers *)

Module JS.

(** The result of [parseInt]: an integer or [NaN]. *)
Inductive number : Type :=
| NaN : number
| Num : Z -> number.

#[export] Instance number_eq_dec : EqDecision number.
Proof. solve_decision. Defined.

(** [x === n] for an integer [x] and a [number] [n]: never true at [NaN]. *)
Definition strict_eq (x : Z) (n : number) : bool :=
  match n with
  | NaN => false
  | Num z => bool_decide (x = z)
  end.

(** Truthiness of a string: the empty string is falsy. *)
Definition truthy_string (s : string) : bool :=
  match s with
  | EmptyString => false
  | String _ _ => true
  end.

(** Truthiness of [string | undefined]. *)
Definition truthy (q : option string) : bool :=
  match q with
  | None => false
  | Some s => truthy_string s
  end.

(** [a || b] on [string | undefined]. *)
Definition or_else (a b : option string) : option string :=
  if truthy a then a else b.

(** [String.prototype.toLowerCase], on the ASCII letters; the bytes of
    other characters are left as they are. *)
Definition lower_ascii (c : ascii) : ascii :=
  let n := nat_of_ascii c in
  if (65 <=? n)%nat && (n <=? 90)%nat then ascii_of_nat (n + 32) else c.

Fixpoint toLowerCase (s : string) : string :=
  match s with
  | EmptyString => EmptyString
  | String c s' => String (lower_ascii c) (toLowerCase s')
  end.


(** White space of one byte: TAB, LF, VT, FF, CR and SP. *)
Definition is_white_space (c : ascii) : bool :=
  let n := nat_of_ascii c in
  (n =? 32)%nat || ((9 <=? n)%nat && (n <=? 13)%nat).

(** White space of two bytes: U+00A0. *)
Definition is_white_space2 (c1 c2 : ascii) : bool :=
  (nat_of_ascii c1 =? 194)%nat && (nat_of_ascii c2 =? 160)%nat.

(** White space of three bytes: U+1680, U+2000 to U+200A, U+2028, U+2029,
    U+202F, U+205F, U+3000 and U+FEFF. *)
Definition is_white_space3 (c1 c2 c3 : ascii) : bool :=
  let n1 := nat_of_ascii c1 in
  let n2 := nat_of_ascii c2 in
  let n3 := nat_of_ascii c3 in
  ((n1 =? 225) && (n2 =? 154) && (n3 =? 128))%nat
  || ((n1 =? 226) && (n2 =? 128)
      && (((128 <=? n3) && (n3 <=? 138)) || (n3 =? 168) || (n3 =? 169)
          || (n3 =? 175)))%nat
  || ((n1 =? 226) && (n2 =? 129) && (n3 =? 159))%nat
  || ((n1 =? 227) && (n2 =? 128) && (n3 =? 128))%nat
  || ((n1 =? 239) && (n2 =? 187) && (n3 =? 191))%nat.

(** The string without its leading white space (StrWhiteSpaceChar). *)
Fixpoint trim_start (s : string) : string :=
  match s with
  | EmptyString => EmptyString
  | String c1 s1 =>
      if is_white_space c1 then trim_start s1
      else
        match s1 with
        | EmptyString => s
        | String c2 s2 =>
            if is_white_space2 c1 c2 then trim_start s2
            else
              match s2 with
              | EmptyString => s
              | String c3 s3 =>
                  if is_white_space3 c1 c2 c3 then trim_start s3 else s
              end
        end
  end.

(** Value of [c] as a digit in [radix], if it is one. *)
Definition digit_value (radix : Z) (c : ascii) : option Z :=
  let n := Z.of_nat (nat_of_ascii c) in
  let v :=
    if (48 <=? n) && (n <=? 57) then Some (n - 48)
    else if (97 <=? n) && (n <=? 122) then Some (n - 87)
    else if (65 <=? n) && (n <=? 90) then Some (n - 55)
    else None in
  match v with
  | Some d => if d <? radix then Some d else None
  | None => None
  end.

(** The longest prefix of radix digits, read as an integer; [acc] is
    [None] until the first digit has been seen. *)
Fixpoint read_digits (radix : Z) (s : string) (acc : option Z) : option Z :=
  match s with
  | EmptyString => acc
  | String c s' =>
      match digit_value radix c with
      | None => acc
      | Some d =>
          read_digits radix s' (Some (radix * default 0 acc + d))
      end
  end.

Definition strip_sign (s : string) : Z * string :=
  match s with
  | String "-" s' => (-1, s')
  | String "+" s' => (1, s')
  | _ => (1, s)
  end.

Definition strip_hex_prefix (s : string) : Z * string :=
  match s with
  | String "0" (String "x" s') => (16, s')
  | String "0" (String "X" s') => (16, s')
  | _ => (10, s)
  end.

(** [parseInt(s)] with no radix argument; the integer is exact, as
    JavaScript's is when its magnitude is at most [safe]. *)
Definition parseInt (s : string) : number :=
  let '(sign, s1) := strip_sign (trim_start s) in
  let '(radix, s2) := strip_hex_prefix s1 in
  match read_digits radix s2 None with
  | None => NaN
  | Some n => Num (sign * n)
  end.

(** 2^53: up to it every integer is a double. *)
Definition safe : Z := 9007199254740992.

(** [Number.prototype.toString] of an integer: its decimal numeral. *)
Definition toString (z : Z) : string := NilZero.string_of_int (Z.to_int z).

End JS.

Export JS.

(** ** Data model *)

(** [type Session].  [behavior] is whatever [toLowerCase] returned: the
    TypeScript annotation ['delete' | 'release'] is not checked at run time. *)
Module Session.
Record t : Type := mk {
  id : string;
  name : string;
  behavior : string;
  ttl : number;
  createIndex : Z;
  lastRenewTime : Z
}.

#[export] Instance eq_dec : EqDecision t.
Proof. solve_decision. Defined.

(** [session.lastRenewTime = now] *)
Definition renewed (s : t) (now : Z) : t :=
  mk (id s) (name s) (behavior s) (ttl s) (createIndex s) now.
End Session.

(** [type KVPair].  [session] is the optional lock holder. *)
Module KVPair.
Record t : Type := mk {
  createIndex : Z;
  flags : number;
  key : string;
  lockIndex : Z;
  modifyIndex : Z;
  value : string;
  session : option string
}.

#[export] Instance eq_dec : EqDecision t.
Proof. solve_decision. Defined.
End KVPair.

(** ** What the store accepts *)

(** The first part of a key: ['sessions'] or ['kv']. *)
Inductive Space : Type :=
| SessionKeys
| KvKeys.

(** Deno KV's limits, as far as the handlers meet them: which keys it reads
    ([kv.get], [kv.list]), which keys it writes ([kv.set], [kv.delete]) and
    which values it stores; outside them the call throws.  A key it writes
    it also reads, and a session that differs from a storable one in
    [lastRenewTime] only is storable too (the ISO string has one length). *)
Record Limits : Type := mkLimits {
  readable_key : Space -> string -> bool;
  writable_key : Space -> string -> bool;
  storable_session : Session.t -> bool;
  storable_entry : KVPair.t -> bool;
  writable_readable :
    ∀ sp k, writable_key sp k = true → readable_key sp k = true;
  storable_renewed :
    ∀ s now, storable_session s = true →
             storable_session (Session.renewed s now) = true
}.

(** Everything in the two maps is something the store accepts. *)
Definition accepted (L : Limits) (ss : gmap string Session.t)
    (es : gmap string KVPair.t) : Prop :=
  map_Forall (λ k s, writable_key L SessionKeys k = true
                     ∧ storable_session L s = true) ss
  ∧ map_Forall (λ k e, writable_key L KvKeys k = true
                       ∧ storable_entry L e = true) es.

#[export] Instance accepted_dec (L : Limits) ss es : Decision (accepted L ss es).
Proof. unfold accepted. apply _. Defined.

(** The shared state: the two key spaces of [kv] and [consulIndex]. *)
Record Store (L : Limits) : Type := mkStore {
  sessions : gmap string Session.t;
  kv : gmap string KVPair.t;
  consulIndex : Z;
  holds_accepted : bool_decide (accepted L sessions kv)
}.

Arguments mkStore {L} sessions kv consulIndex holds_accepted.
Arguments sessions {L} s.
Arguments kv {L} s.
Arguments consulIndex {L} s.
Arguments holds_accepted {L} s.

(** An empty database and [let consulIndex = 1]. *)
Definition initial {L : Limits} : Store L.
Proof.
  refine (mkStore ∅ ∅ 1 _).
  abstract (apply bool_decide_pack; split; apply map_Forall_empty).
Defined.

(** The store with another value of [consulIndex]. *)
Definition with_index {L : Limits} (st : Store L) (index : Z) : Store L :=
  mkStore (sessions st) (kv st) index (holds_accepted st).

(** The store after [kv.set(['sessions', k], s)] went through. *)
Definition with_session {L : Limits} (st : Store L) (k : string)
    (s : Session.t) (index : Z)
    (H : writable_key L SessionKeys k = true ∧ storable_session L s = true)
    : Store L.
Proof.
  refine (mkStore (<[k := s]> (sessions st)) (kv st) index _).
  abstract (apply bool_decide_pack;
            destruct (bool_decide_unpack _ (holds_accepted st)) as [Hs He];
            split; [by apply map_Forall_insert_2|exact He]).
Defined.

(** The store after [kv.set(['kv', k], e)] went through. *)
Definition with_entry {L : Limits} (st : Store L) (k : string)
    (e : KVPair.t) (index : Z)
    (H : writable_key L KvKeys k = true ∧ storable_entry L e = true)
    : Store L.
Proof.
  refine (mkStore (sessions st) (<[k := e]> (kv st)) index _).
  abstract (apply bool_decide_pack;
            destruct (bool_decide_unpack _ (holds_accepted st)) as [Hs He];
            split; [exact Hs|by apply map_Forall_insert_2]).
Defined.

(** The store after [kv.delete(['sessions', k])]. *)
Definition without_session {L : Limits} (st : Store L) (k : string) : Store L.
Proof.
  refine (mkStore (delete k (sessions st)) (kv st) (consulIndex st) _).
  abstract (apply bool_decide_pack;
            destruct (bool_decide_unpack _ (holds_accepted st)) as [Hs He];
            split; [by apply map_Forall_delete|exact He]).
Defined.

(** The store after [kv.delete(['kv', k])]. *)
Definition without_entry {L : Limits} (st : Store L) (k : string) : Store L.
Proof.
  refine (mkStore (sessions st) (delete k (kv st)) (consulIndex st) _).
  abstract (apply bool_decide_pack;
            destruct (bool_decide_unpack _ (holds_accepted st)) as [Hs He];
            split; [exact Hs|by apply map_Forall_delete]).
Defined.

(** What a handler answers: [c.json(a)], a thrown [HTTPException], or an
    uncaught [TypeError], raised by the handler's own code or by the store,
    which Hono answers with 500. *)
Inductive Reply (A : Type) : Type :=
| Json (a : A)
| HTTPException (status : Z) (message : string)
| TypeError.

Arguments Json {A} a.
Arguments HTTPException {A} status message.
Arguments TypeError {A}.

#[export] Instance Reply_eq_dec {A : Type} `{EqDecision A} : EqDecision (Reply A).
Proof. solve_decision. Defined.

(** ** Session handlers *)

(** The JSON body of a create request.  [Behavior] is [None] when the field
    is not a string (so that [.toLowerCase()] throws); [TTL] is the field as
    [parseInt] sees it, that is after [ToString]. *)
Record CreateBody : Type := mkCreateBody {
  Name : string;
  Behavior : option string;
  TTL : string
}.

(** The session object that create builds for a behavior that is a string. *)
Definition new_session {L : Limits} (uuid : string) (now : Z)
    (body : CreateBody) (b : string) (st : Store L) : Session.t :=
  Session.mk uuid (Name body) (toLowerCase b) (parseInt (TTL body))
             (consulIndex st + 1) now.

(** [app.put('/v1/session/create')]: [++consulIndex] runs while the object
    is built, before [kv.set]; when the store refuses the session the index
    stays advanced. *)
Definition session_create {L : Limits} (uuid : string) (now : Z)
    (body : CreateBody) (st : Store L) : Reply string * Store L :=
  match Behavior body with
  | None => (TypeError, st)
  | Some b =>
      let session := new_session uuid now body b st in
      match decide (writable_key L SessionKeys uuid = true
                    ∧ storable_session L session = true) with
      | left H =>
          (Json uuid, with_session st uuid session (consulIndex st + 1) H)
      | right _ => (TypeError, with_index st (consulIndex st + 1))
      end
  end.

(** [app.put('/v1/session/renew/:sessionId')] *)
Definition session_renew {L : Limits} (sessionId : string) (now : Z)
    (st : Store L) : Reply (list Session.t) * Store L :=
  if readable_key L SessionKeys sessionId then
    match sessions st !! sessionId with
    | None => (HTTPException 404 "Session not found", st)
    | Some s =>
        let session := Session.renewed s now in
        match decide (writable_key L SessionKeys sessionId = true
                      ∧ storable_session L session = true) with
        | left H =>
            (Json [session],
             with_session st sessionId session (consulIndex st) H)
        | right _ => (TypeError, st)
        end
    end
  else (TypeError, st).

(** One turn of the loop of destroy over an entry of [kv.list]. *)
Definition sweep_entry (sessionId : string) (m : gmap string KVPair.t)
    (entry : string * KVPair.t) : gmap string KVPair.t :=
  if decide (KVPair.session entry.2 = Some sessionId)
  then delete entry.1 m else m.

(** The loop of destroy: [for await (const entry of iter) ...]. *)
Definition sweep (sessionId : string) (entries : list (string * KVPair.t))
    (m : gmap string KVPair.t) : gmap string KVPair.t :=
  foldl (sweep_entry sessionId) m entries.

(** The store after destroy: the session deleted and, under ['delete'], the
    loop run over every entry of the KV key space.  The keys it deletes are
    in the store, so the store accepts them. *)
Definition destroyed {L : Limits} (sessionId : string) (session : Session.t)
    (st : Store L) : Store L.
Proof.
  refine (mkStore (delete sessionId (sessions st))
            (if decide (Session.behavior session = "delete")
             then sweep sessionId (map_to_list (kv st)) (kv st)
             else kv st)
            (consulIndex st) _).
  abstract (apply bool_decide_pack;
            destruct (bool_decide_unpack _ (holds_accepted st)) as [Hs He];
            split; [by apply map_Forall_delete|];
            case_decide; [|exact He];
            unfold sweep; generalize (map_to_list (kv st));
            revert He; generalize (kv st);
            intros m Hm l; revert m Hm;
            induction l as [|[k e] l IH]; intros m Hm; simpl; [exact Hm|];
            apply IH; unfold sweep_entry; simpl;
            case_decide; [by apply map_Forall_delete|exact Hm]).
Defined.

(** [app.put('/v1/session/destroy/:sessionId')];
    [kv.list({ prefix: ['kv'] })] lists every entry of the KV key space. *)
Definition session_destroy {L : Limits} (sessionId : string) (st : Store L)
    : Reply bool * Store L :=
  if readable_key L SessionKeys sessionId then
    match sessions st !! sessionId with
    | None => (HTTPException 404 "Session not found", st)
    | Some session => (Json true, destroyed sessionId session st)
    end
  else (TypeError, st).

(** ** KV handlers *)

(** The parts of a put request the handler reads. *)
Record PutReq : Type := mkPutReq {
  put_key : string;
  acquire : option string;
  release : option string;
  put_flags : option string;
  cas : option string;
  text : string
}.

(** [c.req.query('acquire') || c.req.query('release')] *)
Definition put_sessionId (r : PutReq) : option string :=
  or_else (acquire r) (release r).

(** [parseInt(c.req.query('flags') || '0')] *)
Definition parsed_flags (r : PutReq) : number :=
  parseInt (default "0" (or_else (put_flags r) (Some "0"))).

(** The block [if (sessionId) { ... }]: [Some] reply when the handler leaves
    there, [None] when it goes on. *)
Definition check_session {L : Limits} (st : Store L) (key : string)
    (sessionId : option string) : option (Reply bool) :=
  match sessionId with
  | Some sid =>
      if truthy_string sid then
        if readable_key L SessionKeys sid then
          match sessions st !! sid with
          | None => Some (HTTPException 400 "Invalid session")
          | Some _ =>
              if readable_key L KvKeys key then
                match kv st !! key with
                | Some existing =>
                    if truthy (KVPair.session existing)
                       && negb (bool_decide
                                  (KVPair.session existing = Some sid))
                    then Some (Json false) else None
                | None => None
                end
              else Some TypeError
          end
        else Some TypeError
      else None
  | None => None
  end.

(** The block [if (cas) { ... }]: for an absent key
    [existing.value?.modifyIndex] is [undefined], which is [!==] any number. *)
Definition check_cas {L : Limits} (st : Store L) (key : string)
    (cas : option string) : option (Reply bool) :=
  match cas with
  | Some c =>
      if truthy_string c then
        if readable_key L KvKeys key then
          match kv st !! key with
          | Some existing =>
              if strict_eq (KVPair.modifyIndex existing) (parseInt c)
              then None else Some (Json false)
          | None => Some (Json false)
          end
        else Some TypeError
      else None
  | None => None
  end.

(** The object [kvPair] that put builds: [++consulIndex] runs here. *)
Definition put_entry {L : Limits} (r : PutReq) (st : Store L) : KVPair.t :=
  KVPair.mk (consulIndex st + 1) (parsed_flags r) (put_key r) 0
            (consulIndex st + 1) (text r) (put_sessionId r).

(** The store accepts the write of put: [kv.set(['kv', key], kvPair)]. *)
Definition accepts_put {L : Limits} (r : PutReq) (st : Store L) : Prop :=
  writable_key L KvKeys (put_key r) = true
  ∧ storable_entry L (put_entry r st) = true.

(** [app.put('/v1/kv/*')]: when the store refuses the write, the index
    taken for [kvPair] stays taken. *)
Definition kv_put {L : Limits} (r : PutReq) (st : Store L)
    : Reply bool * Store L :=
  match check_session st (put_key r) (put_sessionId r) with
  | Some reply => (reply, st)
  | None =>
      match check_cas st (put_key r) (cas r) with
      | Some reply => (reply, st)
      | None =>
          match decide (accepts_put r st) with
          | left H =>
              (Json true,
               with_entry st (put_key r) (put_entry r st)
                          (consulIndex st + 1) H)
          | right _ => (TypeError, with_index st (consulIndex st + 1))
          end
      end
  end.

(** [app.delete('/v1/kv/*')] *)
Definition kv_delete {L : Limits} (key : string) (st : Store L)
    : Reply bool * Store L :=
  if writable_key L KvKeys key
  then (Json true, without_entry st key)
  else (TypeError, st).

(** The parts of a get request the handler reads. *)
Record GetReq : Type := mkGetReq {
  get_key : string;
  recurse : option string;
  index : option string;
  wait : option string;
  stale : option string
}.

(** What get answers: the status, the [X-Consul-Index] header when
    [c.header] was called, the JSON body, and the delay handed to
    [setTimeout] when the handler slept before answering.  An uncaught
    error of the store is the answer 500 with nothing else. *)
Record GetReply : Type := mkGetReply {
  status : Z;
  consul_index_header : option string;
  results : list KVPair.t;
  slept : option number
}.

(** [c.req.query(name) === 'true'] *)
Definition is_true (q : option string) : bool :=
  bool_decide (q = Some "true").

(** The condition of the blocking branch:
    [index && parseInt(index) === value.value.modifyIndex && !stale]. *)
Definition is_blocking (r : GetReq) (v : KVPair.t) : bool :=
  truthy (index r)
  && strict_eq (KVPair.modifyIndex v) (parseInt (default "" (index r)))
  && negb (is_true (stale r)).

(** The delay of the blocking branch: [parseInt(wait)] milliseconds when
    [wait] is given, no timer otherwise. *)
Definition wait_delay (r : GetReq) : option number :=
  if truthy (wait r) then Some (parseInt (default "" (wait r))) else None.

(** [app.get('/v1/kv/*')]; the store is only read.  [list_prefix] is
    [kv.list({ prefix: ['kv', prefix] })], in the order the store yields the
    entries, [None] when the iteration throws; it belongs to Deno KV, not to
    this program. *)
Definition kv_get {L : Limits}
    (list_prefix : gmap string KVPair.t -> string -> option (list KVPair.t))
    (r : GetReq) (st : Store L) : GetReply :=
  if is_true (recurse r) then
    match list_prefix (kv st) (get_key r) with
    | None => mkGetReply 500 None [] None
    | Some [] => mkGetReply 404 None [] None
    | Some entries =>
        mkGetReply 200 (Some (toString (consulIndex st))) entries None
    end
  else if readable_key L KvKeys (get_key r) then
    match kv st !! get_key r with
    | None => mkGetReply 404 None [] None
    | Some v =>
        if is_blocking r v
        then mkGetReply 200 None [v] (wait_delay r)
        else mkGetReply 200 (Some (toString (consulIndex st))) [v] None
    end
  else mkGetReply 500 None [] None.

(** ** Runs of the server *)

(** The requests that can change the store. *)
Inductive Request : Type :=
| SessionCreate (uuid : string) (now : Z) (body : CreateBody)
| SessionRenew (sessionId : string) (now : Z)
| SessionDestroy (sessionId : string)
| KvPut (r : PutReq)
| KvDelete (key : string).

Definition step {L : Limits} (st : Store L) (rq : Request) : Store L :=
  match rq with
  | SessionCreate uuid now body => (session_create uuid now body st).2
  | SessionRenew sid now => (session_renew sid now st).2
  | SessionDestroy sid => (session_destroy sid st).2
  | KvPut r => (kv_put r st).2
  | KvDelete key => (kv_delete key st).2
  end.

Definition run {L : Limits} (st : Store L) (rqs : list Request) : Store L :=
  foldl step st rqs.

(** A read whose timer runs while other requests are served: it arrives at
    [st], the requests [during] are served while it waits, and it answers
    when the timer fires.  The handler holds the entry it read in [value]
    and returns [c.json([value.value])]: the answer is the one computed on
    arrival, beside the store as the other requests left it. *)
Definition kv_get_across {L : Limits}
    (list_prefix : gmap string KVPair.t -> string -> option (list KVPair.t))
    (r : GetReq) (st : Store L) (during : list Request)
    : GetReply * Store L :=
  (kv_get list_prefix r st, run st during).

(** The stores a server started on an empty database can be in. *)
Definition reachable {L : Limits} (st : Store L) : Prop :=
  ∃ rqs, run initial rqs = st.

(** No entry carries an index the allocator has not issued yet. *)
Definition indices_bounded {L : Limits} (st : Store L) : Prop :=
  map_Forall (λ _ e, KVPair.modifyIndex e ≤ consulIndex st) (kv st).

#[export] Instance indices_bounded_dec {L : Limits} (st : Store L)
  : Decision (indices_bounded st).
Proof. unfold indices_bounded. apply _. Defined.

(** The store a restarted process sees: [let consulIndex = 1] runs again,
    while the database keeps what it held. *)
Definition restart {L : Limits} (st : Store L) : Store L := with_index st 1.

(** ** Notions used in the statements *)

(** A put carries [cas = X] when the query parameter is a non-empty string
    that [parseInt] reads as [X], an integer that is a double. *)
Definition carries_cas (r : PutReq) (X : Z) : Prop :=
  ∃ c, cas r = Some c ∧ c ≠ "" ∧ parseInt c = Num X ∧ Z.abs X ≤ safe.


(** A read of one key with no query parameter. *)
Definition plain_get (key : string) : GetReq :=
  mkGetReq key None None None None.



(** The request is a create that is handed the id [sid]. *)
Definition creates (sid : string) (rq : Request) : bool :=
  match rq with
  | SessionCreate uuid _ _ => bool_decide (uuid = sid)
  | _ => false
  end.

(** The request is a put on [key]. *)
Definition puts (key : string) (rq : Request) : bool :=
  match rq with
  | KvPut r => bool_decide (put_key r = key)
  | _ => false
  end.

(** What every entry of a run looks like: filed under its own key, created
    and modified at the same index, never counted as locked, with an index
    the allocator has issued. *)
Definition entry_shape {L : Limits} (st : Store L) (k : string)
    (e : KVPair.t) : Prop :=
  KVPair.key e = k
  ∧ KVPair.createIndex e = KVPair.modifyIndex e
  ∧ KVPair.lockIndex e = 0
  ∧ 2 ≤ KVPair.modifyIndex e ≤ consulIndex st.

(** What every session of a run looks like: filed under its own id, with an
    index the allocator has issued and a behavior in lower case. *)
Definition session_shape {L : Limits} (st : Store L) (k : string)
    (s : Session.t) : Prop :=
  Session.id s = k
  ∧ 2 ≤ Session.createIndex s ≤ consulIndex st
  ∧ toLowerCase (Session.behavior s) = Session.behavior s.

(** No index is carried by two stored objects. *)
Definition indices_unique {L : Limits} (st : Store L) : Prop :=
  (∀ k1 k2 e1 e2, kv st !! k1 = Some e1 → kv st !! k2 = Some e2 →
     KVPair.modifyIndex e1 = KVPair.modifyIndex e2 → k1 = k2)
  ∧ (∀ k1 k2 s1 s2, sessions st !! k1 = Some s1 → sessions st !! k2 = Some s2 →
     Session.createIndex s1 = Session.createIndex s2 → k1 = k2)
  ∧ (∀ k1 k2 e s, kv st !! k1 = Some e → sessions st !! k2 = Some s →
     KVPair.modifyIndex e ≠ Session.createIndex s).

(** The three together, for an allocator that has not gone below its
    start. *)
Definition coherent {L : Limits} (st : Store L) : Prop :=
  1 ≤ consulIndex st
  ∧ (∀ k e, kv st !! k = Some e → entry_shape st k e)
  ∧ (∀ k s, sessions st !! k = Some s → session_shape st k s)
  ∧ indices_unique st.

(** ** Limits for the examples *)

(** Bytes that are zero: Deno KV writes each of them on two bytes in a key. *)
Fixpoint nul_count (s : string) : nat :=
  match s with
  | EmptyString => 0
  | String c s' =>
      ((if (nat_of_ascii c =? 0)%nat then 1 else 0) + nul_count s')%nat
  end.

(** The encoded size of the key [[space, k]]: each string part is a type
    byte, its bytes and a terminator. *)
Definition key_bytes (sp : Space) (k : string) : Z :=
  (match sp with SessionKeys => 10 | KvKeys => 4 end)
  + 2 + Z.of_nat (String.length k + nul_count k).

(** A lower bound of the serialized size of a session: its strings. *)
Definition session_bytes (s : Session.t) : Z :=
  Z.of_nat (String.length (Session.id s) + String.length (Session.name s)
            + String.length (Session.behavior s)).

(** A lower bound of the serialized size of an entry: its strings. *)
Definition entry_bytes (e : KVPair.t) : Z :=
  Z.of_nat (String.length (KVPair.key e) + String.length (KVPair.value e)
            + String.length (default "" (KVPair.session e))).

(** The limits used in the examples: keys of at most 2048 encoded bytes to
    write and one more to read, values of at most 65536 bytes, a value
    being measured by its strings.  It stands for Deno KV wherever the
    strings of a value are short or one of them alone exceeds the limit,
    which is all the examples use; the theorems hold for every [Limits]. *)
Definition sample : Limits.
Proof.
  refine (mkLimits
            (λ sp k, key_bytes sp k <=? 2049)
            (λ sp k, key_bytes sp k <=? 2048)
            (λ s, session_bytes s <=? 65536)
            (λ e, entry_bytes e <=? 65536) _ _).
  - abstract (intros sp k H; apply Z.leb_le in H; apply Z.leb_le; lia).
  - abstract (intros s now H; exact H).
Defined.

(** A string of [n] bytes. *)
Definition filler (n : N) : string := N.iter n (String "x") "".

(** A body of 90000 bytes, more than the store takes. *)
Definition big_text : string := filler 90000.

Definition plain_put (key val : string) : PutReq :=
  mkPutReq key None None None None val.

Definition acquire_put (key sid val : string) : PutReq :=
  mkPutReq key (Some sid) None None None val.

Definition release_put (key sid val : string) : PutReq :=
  mkPutReq key None (Some sid) None None val.

Definition cas_put (key c val : string) : PutReq :=
  mkPutReq key None None None (Some c) val.

(** The empty store under the limits of the examples. *)
Definition store_empty : Store sample := initial.

(** One entry ["a"], written by the first put of a run. *)
Definition store_a : Store sample :=
  run initial [KvPut (plain_put "a" "v")].

(** A session ["s1"] with the given behavior and a TTL of 10, created at
    time 0, holding the lock of ["a"]; ["b"] is not locked. *)
Definition store_locked (behavior : string) : Store sample :=
  run initial
    [SessionCreate "s1" 0 (mkCreateBody "n" (Some behavior) "10");
     KvPut (acquire_put "a" "s1" "v");
     KvPut (plain_put "b" "w")].

(** [store_locked] with a second session ["s2"]. *)
Definition store_two_sessions (behavior : string) : Store sample :=
  run (store_locked behavior)
    [SessionCreate "s2" 0 (mkCreateBody "m" (Some behavior) "10")].

(** A scan that finds nothing. *)
Definition no_scan (m : gmap string KVPair.t) (prefix : string)
    : option (list KVPair.t) := Some [].

(** ** The sentences of the specification that the code does not satisfy,
    written over the model as they are worded *)

Module Stated.


(** Lock holder after a successful put as worded: the acquire token if one
    was given, cleared if a matching release token was given, kept when
    neither was given. *)
Definition lock_holder_rule {L : Limits} (st : Store L) (r : PutReq) : Prop :=
  (kv_put r st).1 = Json true →
  ∃ e', kv (kv_put r st).2 !! put_key r = Some e'
    ∧ (∀ t, acquire r = Some t → KVPair.session e' = Some t)
    ∧ (∀ t e, release r = Some t → kv st !! put_key r = Some e →
              KVPair.session e = Some t → KVPair.session e' = None)
    ∧ (acquire r = None → release r = None →
       KVPair.session e' = kv st !! put_key r ≫= KVPair.session).

(** Destroy as worded: the session goes; under Delete its entries go, under
    Release they stay, value intact and lock holder cleared. *)
Definition destroy_rule {L : Limits} (st : Store L) (sid : string) : Prop :=
  ∀ s, sessions st !! sid = Some s →
  let st' := (session_destroy sid st).2 in
  sessions st' !! sid = None
  ∧ (Session.behavior s = "delete" →
     ∀ k e, kv st !! k = Some e → KVPair.session e = Some sid →
            kv st' !! k = None)
  ∧ (Session.behavior s = "release" →
     ∀ k e, kv st !! k = Some e → KVPair.session e = Some sid →
            ∃ e', kv st' !! k = Some e'
                  ∧ KVPair.value e' = KVPair.value e
                  ∧ KVPair.session e' = None).

(** Indices as worded: a successful put on an existing entry keeps its
    [createIndex] and strictly increases its [modifyIndex]. *)
Definition index_rule {L : Limits} (st : Store L) (r : PutReq) : Prop :=
  ∀ e, kv st !! put_key r = Some e → (kv_put r st).1 = Json true →
  ∃ e', kv (kv_put r st).2 !! put_key r = Some e'
        ∧ KVPair.createIndex e' = KVPair.createIndex e
        ∧ KVPair.modifyIndex e < KVPair.modifyIndex e'.

(** The expiry deadline of the specification, [lastRenewTime + ttlSeconds],
    with [lastRenewTime] in milliseconds; the program computes it nowhere. *)
Definition deadline_passed (s : Session.t) (now : Z) : Prop :=
  match Session.ttl s with
  | Num t => Session.lastRenewTime s + 1000 * t < now
  | NaN => False
  end.

(** Expiry as worded: past its deadline a session cannot be renewed (404)
    and cannot acquire (400). *)
Definition expiry_rule {L : Limits} (st : Store L) (sid : string) (now : Z)
    : Prop :=
  ∀ s, sessions st !! sid = Some s → deadline_passed s now →
  (session_renew sid now st).1 = HTTPException 404 "Session not found"
  ∧ (∀ r, acquire r = Some sid →
          (kv_put r st).1 = HTTPException 400 "Invalid session").


(** Blocking reads as worded, for a read with [index] equal to the entry's
    [modifyIndex] and a [wait], while the requests [during] are served: it
    answers only after its deadline or after a write to the key; when the
    key was not written it answers the entry it knew; when the key was
    written it answers the entry read again. *)
Definition blocking_rule {L : Limits}
    (list_prefix : gmap string KVPair.t -> string -> option (list KVPair.t))
    (st : Store L) (g : GetReq) (during : list Request) : Prop :=
  ∀ v, is_true (recurse g) = false →
       kv st !! get_key g = Some v →
       is_blocking g v = true →
       truthy (wait g) = true →
  let reply := (kv_get_across list_prefix g st during).1 in
  let st' := (kv_get_across list_prefix g st during).2 in
  (is_Some (slept reply) ∨ kv st' !! get_key g ≠ Some v)
  ∧ (kv st' !! get_key g = Some v → results reply = [v])
  ∧ (∀ v', kv st' !! get_key g = Some v' →
           KVPair.modifyIndex v' ≠ KVPair.modifyIndex v →
           results reply = [v']).



(** Puts without tokens as worded: with no acquire, no release and no cas
    the put always succeeds and stores the value and the flags. *)
Definition unconditional_rule {L : Limits} (st : Store L) (r : PutReq)
    : Prop :=
  acquire r = None → release r = None → cas r = None →
  (kv_put r st).1 = Json true
  ∧ ∃ e', kv (kv_put r st).2 !! put_key r = Some e'
          ∧ KVPair.value e' = text r
          ∧ KVPair.flags e' = parsed_flags r.

End Stated.

(** * Properties *)

Section Properties.

Context {L : Limits}.

Implicit Types (st : Store L) (r : PutReq) (g : GetReq).

(** ** Stores *)

(** Two stores with the same maps and the same index are the same store. *)
Lemma store_eq st st' :
  sessions st = sessions st' → kv st = kv st' →
  consulIndex st = consulIndex st' → st = st'.
Proof.
  destruct st as [ss es i H], st' as [ss' es' i' H']. simpl.
  intros -> -> ->. f_equal. apply proof_irrel.
Qed.

Lemma stored_session_accepted st k s :
  sessions st !! k = Some s →
  writable_key L SessionKeys k = true ∧ storable_session L s = true.
Proof.
  intros Hk.
  destruct (bool_decide_unpack _ (holds_accepted st)) as [Hs _].
  exact (Hs k s Hk).
Qed.

Lemma stored_entry_accepted st k e :
  kv st !! k = Some e →
  writable_key L KvKeys k = true ∧ storable_entry L e = true.
Proof.
  intros Hk.
  destruct (bool_decide_unpack _ (holds_accepted st)) as [_ He].
  exact (He k e Hk).
Qed.

Lemma stored_session_readable st k s :
  sessions st !! k = Some s → readable_key L SessionKeys k = true.
Proof. intros [H _]%stored_session_accepted. by apply writable_readable. Qed.

Lemma stored_entry_readable st k e :
  kv st !! k = Some e → readable_key L KvKeys k = true.
Proof. intros [H _]%stored_entry_accepted. by apply writable_readable. Qed.

(** ** [parseInt] reads back what [toString] prints *)

Ltac eval_digit :=
  match goal with
  | |- context [digit_value 10 ?c] =>
      let v := eval vm_compute in (digit_value 10 c) in
      change (digit_value 10 c) with v
  end.

Lemma read_digits_acc d acc :
  read_digits 10 (NilEmpty.string_of_uint d) (Some (Z.pos acc)) =
  Some (Z.pos (Pos.of_uint_acc d acc)).
Proof.
  revert acc.
  induction d; intros acc;
    cbn [NilEmpty.string_of_uint read_digits Pos.of_uint_acc];
    [done|..]; eval_digit; cbn [default from_option id];
    rewrite <- IHd; do 2 f_equal; lia.
Qed.

Lemma read_digits_zero d :
  read_digits 10 (NilEmpty.string_of_uint d) (Some 0) =
  Some (Z.of_N (Pos.of_uint d)).
Proof.
  induction d; cbn [NilEmpty.string_of_uint read_digits Pos.of_uint];
    [done|..]; eval_digit; cbn [default from_option id];
    [exact IHd|..]; apply read_digits_acc.
Qed.

Lemma read_digits_uint d :
  read_digits 10 (NilZero.string_of_uint d) None = Some (Z.of_uint d).
Proof.
  unfold Z.of_uint.
  destruct d;
    cbn [NilZero.string_of_uint NilEmpty.string_of_uint read_digits Pos.of_uint];
    [done|..]; eval_digit; cbn [default from_option id];
    [apply read_digits_zero|..]; apply read_digits_acc.
Qed.

Lemma strip_hex_prefix_uint d :
  strip_hex_prefix (NilZero.string_of_uint d) = (10, NilZero.string_of_uint d).
Proof. destruct d as [|d|d|d|d|d|d|d|d|d|d]; try done; by destruct d. Qed.

(** A string that starts with an ASCII character other than white space
    has no leading white space. *)
Lemma trim_start_head c s :
  is_white_space c = false → (nat_of_ascii c <? 128)%nat = true →
  trim_start (String c s) = String c s.
Proof.
  intros Hw Ha. apply Nat.ltb_lt in Ha. simpl. rewrite Hw.
  assert (∀ n, (128 ≤ n)%nat → (nat_of_ascii c =? n)%nat = false) as Hne.
  { intros n Hn. apply Nat.eqb_neq. lia. }
  destruct s as [|c2 s2]; [done|].
  unfold is_white_space2. rewrite (Hne 194%nat) by lia. simpl.
  destruct s2 as [|c3 s3]; [done|].
  unfold is_white_space3.
  by rewrite (Hne 225%nat), (Hne 226%nat), (Hne 227%nat), (Hne 239%nat)
    by lia.
Qed.

Lemma trim_start_uint d :
  trim_start (NilZero.string_of_uint d) = NilZero.string_of_uint d.
Proof. destruct d; by apply trim_start_head. Qed.

Lemma parseInt_uint d : parseInt (NilZero.string_of_uint d) = Num (Z.of_uint d).
Proof.
  unfold parseInt. rewrite trim_start_uint.
  assert (strip_sign (NilZero.string_of_uint d)
          = (1, NilZero.string_of_uint d)) as -> by by destruct d.
  rewrite strip_hex_prefix_uint, read_digits_uint. f_equal. lia.
Qed.

Lemma parseInt_neg_uint d :
  parseInt (String "-" (NilZero.string_of_uint d)) = Num (- Z.of_uint d).
Proof.
  unfold parseInt. rewrite trim_start_head by done.
  cbn [strip_sign]. cbv beta iota.
  by rewrite strip_hex_prefix_uint, read_digits_uint.
Qed.

Lemma parseInt_toString z : parseInt (toString z) = Num z.
Proof.
  unfold toString. rewrite <- (DecimalZ.of_to z) at 2.
  destruct (Z.to_int z) as [d|d]; simpl.
  - apply parseInt_uint.
  - apply parseInt_neg_uint.
Qed.

Lemma toString_truthy z : toString z ≠ "".
Proof.
  unfold toString. destruct (Z.to_int z) as [d|d]; simpl; [|done].
  by destruct d.
Qed.

(** Every integer that is a double can be carried as [cas]. *)
Lemma carries_cas_toString key acq rel fl val X :
  Z.abs X ≤ safe →
  carries_cas (mkPutReq key acq rel fl (Some (toString X)) val) X.
Proof.
  intros HX. exists (toString X). split; [done|].
  split; [apply toString_truthy|]. split; [apply parseInt_toString|done].
Qed.

(** ** Facts about put *)

Lemma check_session_not_true st key sid reply :
  check_session st key sid = Some reply → reply ≠ Json true.
Proof.
  unfold check_session. intros H.
  repeat case_match; simplify_eq; discriminate.
Qed.

Lemma check_cas_not_true st key c reply :
  check_cas st key c = Some reply → reply ≠ Json true.
Proof.
  unfold check_cas. intros H.
  repeat case_match; simplify_eq; discriminate.
Qed.

Lemma check_cas_not_http st key c code msg :
  check_cas st key c ≠ Some (HTTPException code msg).
Proof. unfold check_cas. repeat case_match; discriminate. Qed.

Lemma kv_put_true_iff r st :
  (kv_put r st).1 = Json true ↔
  check_session st (put_key r) (put_sessionId r) = None
  ∧ check_cas st (put_key r) (cas r) = None
  ∧ accepts_put r st.
Proof.
  unfold kv_put.
  destruct (check_session _ _ _) as [reply|] eqn:Hs; simpl.
  - split; [|intros [? _]; done].
    intros ->. by apply check_session_not_true in Hs.
  - destruct (check_cas _ _ _) as [reply|] eqn:Hc; simpl.
    + split; [|intros (_ & ? & _); done].
      intros ->. by apply check_cas_not_true in Hc.
    + destruct (decide (accepts_put r st)); simpl; [done|].
      split; [done|]. by intros (_ & _ & ?).
Qed.

Lemma kv_put_stopped r st reply :
  check_session st (put_key r) (put_sessionId r) = Some reply →
  kv_put r st = (reply, st).
Proof. intros H. unfold kv_put. by rewrite H. Qed.

Lemma kv_put_sessions r st : sessions (kv_put r st).2 = sessions st.
Proof. unfold kv_put. by repeat case_match. Qed.

Lemma kv_put_true_kv r st :
  (kv_put r st).1 = Json true →
  kv (kv_put r st).2 = <[put_key r := put_entry r st]> (kv st).
Proof.
  intros (Hs & Hc & Ha)%kv_put_true_iff. unfold kv_put. rewrite Hs, Hc.
  by destruct (decide (accepts_put r st)).
Qed.

Lemma kv_put_true_index r st :
  (kv_put r st).1 = Json true →
  consulIndex (kv_put r st).2 = consulIndex st + 1.
Proof.
  intros (Hs & Hc & Ha)%kv_put_true_iff. unfold kv_put. rewrite Hs, Hc.
  by destruct (decide (accepts_put r st)).
Qed.

Lemma kv_put_true_lookup r st :
  (kv_put r st).1 = Json true →
  kv (kv_put r st).2 !! put_key r = Some (put_entry r st).
Proof. intros Ht. rewrite (kv_put_true_kv _ _ Ht). apply lookup_insert_eq. Qed.

Lemma kv_put_not_true_kv r st :
  (kv_put r st).1 ≠ Json true → kv (kv_put r st).2 = kv st.
Proof. unfold kv_put. repeat case_match; simpl; done. Qed.

Lemma kv_put_lookup_ne r st k :
  k ≠ put_key r → kv (kv_put r st).2 !! k = kv st !! k.
Proof.
  intros Hk. destruct (decide ((kv_put r st).1 = Json true)) as [Ht|Hf].
  - rewrite (kv_put_true_kv _ _ Ht). by apply lookup_insert_ne.
  - by rewrite (kv_put_not_true_kv _ _ Hf).
Qed.

(** Where the index stands after a put: advanced by one exactly when both
    checks were passed. *)
Lemma kv_put_index r st :
  consulIndex (kv_put r st).2 =
  consulIndex st
  + (if bool_decide (check_session st (put_key r) (put_sessionId r) = None
                     ∧ check_cas st (put_key r) (cas r) = None)
     then 1 else 0).
Proof.
  unfold kv_put. case_bool_decide as Hb.
  - destruct Hb as [-> ->]. by destruct (decide _).
  - destruct (check_session _ _ _) as [reply|] eqn:Hs; simpl; [lia|].
    destruct (check_cas _ _ _) as [reply|] eqn:Hc; simpl; [lia|].
    by destruct Hb.
Qed.



(** A put answers with an HTTP error only from its session block. *)
Lemma kv_put_http r st code msg :
  (kv_put r st).1 = HTTPException code msg ↔
  check_session st (put_key r) (put_sessionId r)
  = Some (HTTPException code msg).
Proof.
  unfold kv_put.
  destruct (check_session _ _ _) as [reply|]; simpl;
    [split; congruence|].
  destruct (check_cas _ _ _) as [reply|] eqn:Hc; simpl.
  - split; [|done]. intros ->. by apply check_cas_not_http in Hc.
  - by destruct (decide _).
Qed.

Lemma check_session_400 st key sid :
  sid ≠ "" →
  check_session st key (Some sid) = Some (HTTPException 400 "Invalid session")
  ↔ sessions st !! sid = None ∧ readable_key L SessionKeys sid = true.
Proof.
  intros Hne. unfold check_session.
  destruct sid as [|c sid]; [done|]. simpl truthy_string. cbv iota.
  destruct (readable_key L SessionKeys _); [|split; [done|by intros [_ ?]]].
  destruct (sessions st !! _); [|done].
  split; [|by intros [? _]].
  repeat case_match; done.
Qed.

(** ** Facts about the session handlers *)

Lemma session_renew_found st sid s now :
  sessions st !! sid = Some s →
  (session_renew sid now st).1 = Json [Session.renewed s now]
  ∧ sessions (session_renew sid now st).2
    = <[sid := Session.renewed s now]> (sessions st)
  ∧ kv (session_renew sid now st).2 = kv st
  ∧ consulIndex (session_renew sid now st).2 = consulIndex st.
Proof.
  intros Hs. unfold session_renew.
  rewrite (stored_session_readable st sid s Hs), Hs.
  destruct (decide _) as [H|H]; [done|].
  destruct H. apply stored_session_accepted in Hs as [Hk Hv].
  split; [done|]. by apply storable_renewed.
Qed.

Lemma session_renew_absent st sid now :
  sessions st !! sid = None →
  session_renew sid now st =
  (if readable_key L SessionKeys sid
   then HTTPException 404 "Session not found" else TypeError, st).
Proof.
  intros Hs. unfold session_renew. rewrite Hs.
  by destruct (readable_key _ _ _).
Qed.

Lemma session_destroy_found st sid s :
  sessions st !! sid = Some s →
  session_destroy sid st = (Json true, destroyed sid s st).
Proof.
  intros Hs. unfold session_destroy.
  by rewrite (stored_session_readable st sid s Hs), Hs.
Qed.

Lemma session_destroy_absent st sid :
  sessions st !! sid = None →
  session_destroy sid st =
  (if readable_key L SessionKeys sid
   then HTTPException 404 "Session not found" else TypeError, st).
Proof.
  intros Hs. unfold session_destroy. rewrite Hs.
  by destruct (readable_key _ _ _).
Qed.

Lemma session_create_accepted st uuid now b beh :
  Behavior b = Some beh →
  writable_key L SessionKeys uuid = true
  ∧ storable_session L (new_session uuid now b beh st) = true →
  (session_create uuid now b st).1 = Json uuid
  ∧ sessions (session_create uuid now b st).2
    = <[uuid := new_session uuid now b beh st]> (sessions st)
  ∧ kv (session_create uuid now b st).2 = kv st
  ∧ consulIndex (session_create uuid now b st).2 = consulIndex st + 1.
Proof.
  intros Hb Hok. unfold session_create. rewrite Hb.
  by destruct (decide _).
Qed.


Lemma sweep_lookup_Some sid entries m k e :
  sweep sid entries m !! k = Some e → m !! k = Some e.
Proof.
  unfold sweep. revert m.
  induction entries as [|[k' e'] entries IH]; intros m; simpl; [done|].
  intros H%IH. unfold sweep_entry in H. simpl in H.
  case_decide; [|done].
  by apply lookup_delete_Some in H as [_ ?].
Qed.

Lemma sweep_lookup_removed sid entries m k e :
  (k, e) ∈ entries → KVPair.session e = Some sid →
  sweep sid entries m !! k = None.
Proof.
  unfold sweep. revert m.
  induction entries as [|[k' e'] entries IH]; intros m Hin Hs.
  - by apply elem_of_nil in Hin.
  - apply elem_of_cons in Hin as [Heq|Hin]; [|by apply IH].
    injection Heq as <- <-. simpl. unfold sweep_entry at 2. simpl.
    rewrite decide_True by done.
    destruct (foldl _ _ _ !! k) as [x|] eqn:Hx; [|done].
    apply (sweep_lookup_Some sid) in Hx. by rewrite lookup_delete_eq in Hx.
Qed.

Lemma sweep_lookup_kept sid entries m k :
  (∀ e, (k, e) ∈ entries → KVPair.session e ≠ Some sid) →
  sweep sid entries m !! k = m !! k.
Proof.
  unfold sweep. revert m.
  induction entries as [|[k' e'] entries IH]; intros m Hall; [done|].
  simpl. rewrite IH.
  - unfold sweep_entry. simpl. case_decide as Hs; [|done].
    apply lookup_delete_ne. intros ->.
    by apply (Hall e'); [left|].
  - intros e He. apply Hall. by right.
Qed.

Lemma sweep_map_to_list sid (m : gmap string KVPair.t) k e :
  m !! k = Some e →
  sweep sid (map_to_list m) m !! k =
  if decide (KVPair.session e = Some sid) then None else Some e.
Proof.
  intros Hk. case_decide as Hs.
  - apply (sweep_lookup_removed sid _ _ k e); [|done].
    by apply elem_of_map_to_list.
  - rewrite sweep_lookup_kept; [done|].
    intros e' He'%elem_of_map_to_list. by simplify_eq.
Qed.

Lemma sweep_nothing_held sid (m : gmap string KVPair.t) :
  (∀ k e, m !! k = Some e → KVPair.session e ≠ Some sid) →
  sweep sid (map_to_list m) m = m.
Proof.
  intros H. apply map_eq. intros k. apply sweep_lookup_kept.
  intros e He%elem_of_map_to_list. by apply (H k).
Qed.

Lemma destroyed_lookup_Some sid s st k e :
  kv (destroyed sid s st) !! k = Some e → kv st !! k = Some e.
Proof.
  simpl. case_decide; [|done]. apply sweep_lookup_Some.
Qed.

(** ** Invariant of runs: stored indices never exceed the allocator *)

Lemma indices_bounded_initial : indices_bounded (initial : Store L).
Proof. unfold indices_bounded. simpl. apply map_Forall_empty. Qed.

Lemma indices_bounded_keep st st' :
  indices_bounded st →
  (∀ k e, kv st' !! k = Some e → kv st !! k = Some e) →
  consulIndex st ≤ consulIndex st' →
  indices_bounded st'.
Proof.
  intros Hb Hsub Hle k e Hk%Hsub. apply Hb in Hk. simpl in *. lia.
Qed.

Lemma indices_bounded_step st rq :
  indices_bounded st → indices_bounded (step st rq).
Proof.
  intros H. destruct rq as [uuid now body|sid now|sid|r|key]; simpl.
  - apply (indices_bounded_keep st); [done|..];
      unfold session_create; repeat case_match; simpl; (done || lia).
  - apply (indices_bounded_keep st); [done|..];
      unfold session_renew; repeat case_match; simpl; (done || lia).
  - apply (indices_bounded_keep st); [done|..];
      unfold session_destroy; repeat case_match; simpl; try (done || lia).
    all: intros k e; apply destroyed_lookup_Some.
  - destruct (decide ((kv_put r st).1 = Json true)) as [Ht|Hf].
    + unfold indices_bounded.
      rewrite (kv_put_true_kv _ _ Ht), (kv_put_true_index _ _ Ht).
      apply map_Forall_insert_2; simpl; [lia|].
      eapply map_Forall_impl; [exact H|]. simpl. intros; lia.
    + apply (indices_bounded_keep st); [done|..].
      * by rewrite (kv_put_not_true_kv _ _ Hf).
      * rewrite kv_put_index. case_bool_decide; lia.
  - apply (indices_bounded_keep st); [done|..];
      unfold kv_delete; case_match; simpl; try (done || lia).
    by intros k e [_ ?]%lookup_delete_Some.
Qed.

Lemma indices_bounded_run rqs st :
  indices_bounded st → indices_bounded (run st rqs).
Proof.
  unfold run. revert st.
  induction rqs as [|rq rqs IH]; intros st H; simpl; [done|].
  by apply IH, indices_bounded_step.
Qed.

Lemma reachable_indices_bounded st : reachable st → indices_bounded st.
Proof.
  intros [rqs <-]. apply indices_bounded_run, indices_bounded_initial.
Qed.

(** ** Compare-and-swap *)


(** ** Lock holder written by put *)

(** C2, amended: after a successful put the stored lock holder is
    [acquire || release] of the request: the acquire token when one was
    given; otherwise the release token when one was given (the holder is set
    to it, not cleared); and no holder at all when neither was given,
    whoever held the key before. *)
Theorem put_lock_holder (r : PutReq) (st : Store L) :
  (kv_put r st).1 = Json true →
  ∃ e', kv (kv_put r st).2 !! put_key r = Some e'
    ∧ KVPair.session e' = put_sessionId r
    ∧ (∀ t, acquire r = Some t → t ≠ "" → KVPair.session e' = Some t)
    ∧ (∀ t, truthy (acquire r) = false → release r = Some t →
            KVPair.session e' = Some t)
    ∧ (truthy (acquire r) = false → release r = None →
       KVPair.session e' = None).
Proof.
  intros Ht. rewrite (kv_put_true_lookup _ _ Ht).
  eexists. split; [done|]. simpl. unfold put_sessionId, or_else.
  repeat split.
  - intros t -> Hne. by destruct t.
  - by intros t -> ->.
  - by intros -> ->.
Qed.

(** ** Destroy *)

(** C3, amended: destroying a stored session answers [true] and removes the
    session; when its behavior is ["delete"] every entry it holds is removed
    and every other entry is kept as it is; for any other behavior,
    ["release"] included, the KV entries are unchanged: value intact and the
    lock holder still the destroyed session. *)
Theorem destroy_cascade (st : Store L) (sid : string) (s : Session.t) :
  sessions st !! sid = Some s →
  (session_destroy sid st).1 = Json true
  ∧ sessions (session_destroy sid st).2 !! sid = None
  ∧ consulIndex (session_destroy sid st).2 = consulIndex st
  ∧ (Session.behavior s = "delete" →
     ∀ k e, kv st !! k = Some e →
       kv (session_destroy sid st).2 !! k =
       if decide (KVPair.session e = Some sid) then None else Some e)
  ∧ (Session.behavior s ≠ "delete" →
     kv (session_destroy sid st).2 = kv st).
Proof.
  intros Hs. rewrite (session_destroy_found st sid s Hs). simpl.
  split; [done|]. split; [apply lookup_delete_eq|]. split; [done|].
  split; intros Hb.
  - rewrite decide_True by done. intros k e. apply sweep_map_to_list.
  - by rewrite decide_False.
Qed.

(** ** Indices written by put *)

(** C4, amended: a successful put on a key that has an entry, in a store
    whose indices are bounded by the allocator, strictly increases the
    entry's [modifyIndex]; [createIndex] is not kept: it is rewritten to the
    same new index as [modifyIndex]. *)
Theorem put_indices (st : Store L) (r : PutReq) (e : KVPair.t) :
  indices_bounded st →
  kv st !! put_key r = Some e →
  (kv_put r st).1 = Json true →
  ∃ e', kv (kv_put r st).2 !! put_key r = Some e'
    ∧ KVPair.modifyIndex e < KVPair.modifyIndex e'
    ∧ KVPair.modifyIndex e' = consulIndex st + 1
    ∧ KVPair.createIndex e' = KVPair.modifyIndex e'.
Proof.
  intros Hbound He Ht.
  rewrite (kv_put_true_lookup _ _ Ht).
  eexists. split; [done|]. simpl.
  apply Hbound in He. simpl in He. repeat split. lia.
Qed.

(** ** Sessions and time *)

(** C5, amended: the program has no expiry.  Whatever the time, a renewal
    of a session that is in the store succeeds: it answers the session with
    [lastRenewTime] set to now and writes that session back under its id,
    leaving the other sessions, the entries and the index alone.  A renewal
    is answered 404 exactly when the session is not in the store and the
    store reads the id; a put whose token is [sid] is rejected with 400
    exactly then too.  (An id the store does not read, which cannot be in
    the store, ends in a 500.)  The deadline [lastRenewTime + ttl] plays no
    part. *)
Theorem session_lookup_ignores_time (st : Store L) (sid : string) (now : Z) :
  (∀ s, sessions st !! sid = Some s →
     (session_renew sid now st).1 = Json [Session.renewed s now]
     ∧ sessions (session_renew sid now st).2 !! sid
       = Some (Session.renewed s now)
     ∧ (∀ k, k ≠ sid →
          sessions (session_renew sid now st).2 !! k = sessions st !! k)
     ∧ kv (session_renew sid now st).2 = kv st
     ∧ consulIndex (session_renew sid now st).2 = consulIndex st)
  ∧ ((session_renew sid now st).1 = HTTPException 404 "Session not found"
     ↔ sessions st !! sid = None ∧ readable_key L SessionKeys sid = true)
  ∧ (sessions st !! sid = None →
     session_renew sid now st =
     (if readable_key L SessionKeys sid
      then HTTPException 404 "Session not found" else TypeError, st))
  ∧ (∀ r, put_sessionId r = Some sid → sid ≠ "" →
       ((kv_put r st).1 = HTTPException 400 "Invalid session"
        ↔ sessions st !! sid = None ∧ readable_key L SessionKeys sid = true)).
Proof.
  split; [|split; [|split]].
  - intros s Hs.
    destruct (session_renew_found st sid s now Hs) as (Hr & Hss & Hkv & Hi).
    rewrite Hss. split; [done|]. split; [apply lookup_insert_eq|].
    split; [|done]. intros k Hk. by apply lookup_insert_ne.
  - destruct (sessions st !! sid) as [s|] eqn:Hs.
    + destruct (session_renew_found st sid s now Hs) as (-> & _).
      split; [done|]. by intros [? _].
    + rewrite (session_renew_absent st sid now Hs). simpl.
      destruct (readable_key _ _ _); split; (done || by intros [_ ?]).
  - apply session_renew_absent.
  - intros r Hr Hne. rewrite kv_put_http, Hr. by apply check_session_400.
Qed.

(** ** Puts that do not succeed *)


(** ** Session creation *)

Lemma lower_ascii_idem c : lower_ascii (lower_ascii c) = lower_ascii c.
Proof. destruct c as [[] [] [] [] [] [] [] []]; reflexivity. Qed.

Lemma toLowerCase_idem s : toLowerCase (toLowerCase s) = toLowerCase s.
Proof.
  induction s as [|c s IH]; simpl; [done|].
  by rewrite lower_ascii_idem, IH.
Qed.


(** ** Puts without tokens *)

(** C10, amended: a put with no acquire token, no release token and no cas
    returns [true] exactly when the store accepts the new entry (key and
    value within its limits), whatever the entry under the key was,
    lock-held or not; it then stores the request's value and, as flags,
    [parseInt] of the flags parameter, or 0 when that parameter is missing
    or empty - so the integer itself when the parameter is the decimal
    numeral of an integer that is a double.  When the store refuses the
    entry the put ends in a 500 and stores nothing. *)
Theorem put_unconditional (r : PutReq) (st : Store L) :
  truthy (acquire r) = false →
  truthy (release r) = false →
  truthy (cas r) = false →
  ((kv_put r st).1 = Json true ↔ accepts_put r st)
  ∧ (accepts_put r st →
     ∃ e', kv (kv_put r st).2 !! put_key r = Some e'
           ∧ KVPair.value e' = text r
           ∧ KVPair.flags e'
             = match put_flags r with
               | Some (String c f) => parseInt (String c f)
               | _ => Num 0
               end
           ∧ (∀ z, Z.abs z ≤ safe → put_flags r = Some (toString z) →
                   KVPair.flags e' = Num z))
  ∧ (¬ accepts_put r st →
     (kv_put r st).1 = TypeError ∧ kv (kv_put r st).2 = kv st).
Proof.
  intros Ha Hr Hc.
  assert (check_session st (put_key r) (put_sessionId r) = None) as Hs.
  { unfold check_session, put_sessionId, or_else. rewrite Ha.
    destruct (release r) as [s|]; [|done]. simpl in Hr. by rewrite Hr. }
  assert (check_cas st (put_key r) (cas r) = None) as Hcas.
  { unfold check_cas. destruct (cas r) as [c|]; [|done].
    simpl in Hc. by rewrite Hc. }
  assert ((kv_put r st).1 = Json true ↔ accepts_put r st) as Hiff.
  { rewrite kv_put_true_iff. tauto. }
  split; [exact Hiff|]. split.
  - intros Hok%Hiff. rewrite (kv_put_true_lookup _ _ Hok).
    eexists. split; [done|]. split; [done|]. simpl.
    unfold parsed_flags, or_else. split.
    + by destruct (put_flags r) as [[|c f]|].
    + intros z _ ->. pose proof (toString_truthy z) as Hz. simpl.
      destruct (toString z) eqn:Hz'; [done|]. simpl.
      rewrite <- Hz'. apply parseInt_toString.
  - intros Hno. unfold kv_put. rewrite Hs, Hcas.
    by destruct (decide (accepts_put r st)).
Qed.

(** ** Reads *)

Lemma strict_eq_false x n : n ≠ Num x → strict_eq x n = false.
Proof.
  destruct n as [|z]; [done|]. intros H. simpl.
  apply bool_decide_eq_false. congruence.
Qed.

Section Reads.

Variable list_prefix :
  gmap string KVPair.t -> string -> option (list KVPair.t).

(** A recursive read that finds entries carries the index. *)
Lemma kv_get_recurse_header g st e entries :
  is_true (recurse g) = true →
  list_prefix (kv st) (get_key g) = Some (e :: entries) →
  kv_get list_prefix g st =
  mkGetReply 200 (Some (toString (consulIndex st))) (e :: entries) None.
Proof. intros Hr Hl. unfold kv_get. by rewrite Hr, Hl. Qed.

(** A single-key read outside the blocking branch carries the index. *)
Lemma kv_get_plain_header g st v :
  is_true (recurse g) = false →
  kv st !! get_key g = Some v →
  is_blocking g v = false →
  kv_get list_prefix g st =
  mkGetReply 200 (Some (toString (consulIndex st))) [v] None.
Proof.
  intros Hr Hv Hb. unfold kv_get.
  by rewrite Hr, (stored_entry_readable st _ v Hv), Hv, Hb.
Qed.

(** The blocking branch answers with the entry it read on arrival, after
    the delay of [wait], and does not set the header. *)
Lemma kv_get_blocking g st v :
  is_true (recurse g) = false →
  kv st !! get_key g = Some v →
  is_blocking g v = true →
  kv_get list_prefix g st = mkGetReply 200 None [v] (wait_delay g).
Proof.
  intros Hr Hv Hb. unfold kv_get.
  by rewrite Hr, (stored_entry_readable st _ v Hv), Hv, Hb.
Qed.

(** A read that finds nothing answers 404 without the header, when the
    store reads the key. *)
Lemma kv_get_missing g st :
  is_true (recurse g) = false →
  readable_key L KvKeys (get_key g) = true →
  kv st !! get_key g = None →
  kv_get list_prefix g st = mkGetReply 404 None [] None.
Proof. intros Hr Hread Hv. unfold kv_get. by rewrite Hr, Hread, Hv. Qed.

(** The header of a read, sent back as [index], is read by [parseInt] as the
    allocator's value. *)
Lemma kv_get_header_round_trip g st h :
  consul_index_header (kv_get list_prefix g st) = Some h →
  parseInt h = Num (consulIndex st).
Proof.
  unfold kv_get. intros H.
  repeat case_match; simpl in H; simplify_eq; apply parseInt_toString.
Qed.

(** C7, amended: a blocking read - [index] equal to the entry's
    [modifyIndex], not stale - sleeps and then returns: with a [wait] it
    answers when a timer of [parseInt(wait)] milliseconds fires, without a
    [wait] at once, and in both cases with status 200, no index header and
    the entry as it was read on arrival.  Requests served while it waits,
    writes to the key included, neither wake it nor change its answer: the
    entry is not read again. *)
Theorem blocking_get_sleeps_then_returns (g : GetReq) (st : Store L)
    (v : KVPair.t) (during : list Request) :
  is_true (recurse g) = false →
  kv st !! get_key g = Some v →
  is_blocking g v = true →
  (kv_get_across list_prefix g st during).1
  = mkGetReply 200 None [v]
      (match wait g with
       | Some (String c w) => Some (parseInt (String c w))
       | _ => None
       end)
  ∧ (kv_get_across list_prefix g st during).2 = run st during
  ∧ (kv_get_across list_prefix g st during).1
    = (kv_get_across list_prefix g st []).1.
Proof.
  intros Hr Hv Hb. unfold kv_get_across. simpl.
  rewrite (kv_get_blocking g st v Hr Hv Hb). split; [|done].
  f_equal. unfold wait_delay. by destruct (wait g) as [[|c w]|].
Qed.

(** X4: a read of the key right after a successful put answers 200 with
    exactly the entry the put wrote (the request's text, flags and token,
    both indices the new one) and with the new index in the header. *)
Theorem put_then_get (r : PutReq) (st : Store L) :
  (kv_put r st).1 = Json true →
  kv_get list_prefix (plain_get (put_key r)) (kv_put r st).2 =
  mkGetReply 200 (Some (toString (consulIndex st + 1)))
    [KVPair.mk (consulIndex st + 1) (parsed_flags r) (put_key r) 0
               (consulIndex st + 1) (text r) (put_sessionId r)]
    None.
Proof.
  intros Ht.
  rewrite (kv_get_plain_header (plain_get (put_key r)) _ (put_entry r st));
    [by rewrite (kv_put_true_index _ _ Ht)|done| |done].
  by apply kv_put_true_lookup.
Qed.

(** X5: after a delete that the store accepted, every read of that single
    key (whatever its index, wait and stale parameters) answers 404 with an
    empty body, no header and no wait. *)
Theorem delete_then_get (g : GetReq) (st : Store L) :
  is_true (recurse g) = false →
  (kv_delete (get_key g) st).1 = Json true →
  kv_get list_prefix g (kv_delete (get_key g) st).2 =
  mkGetReply 404 None [] None.
Proof.
  intros Hr. unfold kv_delete.
  destruct (writable_key L KvKeys (get_key g)) eqn:Hw; [|done].
  intros _. apply kv_get_missing; [done|by apply writable_readable|].
  simpl. apply lookup_delete_eq.
Qed.

(** X17: every answer of get is a 200, a 404 or a 500; it is a 200 exactly
    when its body is not empty; it is a 500 exactly when the store threw,
    on the scan of a recursive read or on a key it does not read; the index
    header, when present, is the allocator's value in decimal and comes
    with a 200 and no wait; and an answer that waited is a 200 without the
    header. *)
Theorem get_reply_shape (g : GetReq) (st : Store L) :
  (status (kv_get list_prefix g st) = 200
   ∨ status (kv_get list_prefix g st) = 404
   ∨ status (kv_get list_prefix g st) = 500)
  ∧ (status (kv_get list_prefix g st) = 200
     ↔ results (kv_get list_prefix g st) ≠ [])
  ∧ (status (kv_get list_prefix g st) = 500
     ↔ (is_true (recurse g) = true
        ∧ list_prefix (kv st) (get_key g) = None)
       ∨ (is_true (recurse g) = false
          ∧ readable_key L KvKeys (get_key g) = false))
  ∧ (is_Some (consul_index_header (kv_get list_prefix g st)) →
     consul_index_header (kv_get list_prefix g st)
     = Some (toString (consulIndex st))
     ∧ status (kv_get list_prefix g st) = 200
     ∧ slept (kv_get list_prefix g st) = None)
  ∧ (is_Some (slept (kv_get list_prefix g st)) →
     status (kv_get list_prefix g st) = 200
     ∧ consul_index_header (kv_get list_prefix g st) = None).
Proof.
  unfold kv_get.
  destruct (is_true (recurse g)) eqn:Hr;
    [destruct (list_prefix (kv st) (get_key g)) as [[|e entries]|] eqn:Hl
    |destruct (readable_key L KvKeys (get_key g)) eqn:Hread;
       [destruct (kv st !! get_key g) as [v|];
          [destruct (is_blocking g v)|]|]];
    simpl; split_and!; naive_solver.
Qed.

(** X18: a read of a single key that has an entry answers at once, with
    the entry and the index header, whenever [stale] is ['true'], or no
    [index] is given, or [index] does not parse to the entry's
    [modifyIndex]; [wait] has no effect then. *)
Theorem get_answers_at_once (g : GetReq) (st : Store L) (v : KVPair.t) :
  is_true (recurse g) = false →
  kv st !! get_key g = Some v →
  is_true (stale g) = true
  ∨ truthy (index g) = false
  ∨ parseInt (default "" (index g)) ≠ Num (KVPair.modifyIndex v) →
  kv_get list_prefix g st =
  mkGetReply 200 (Some (toString (consulIndex st))) [v] None.
Proof.
  intros Hr Hv Hcase. apply kv_get_plain_header; [done..|].
  unfold is_blocking. destruct Hcase as [Hs|[Hi|Hp]].
  - rewrite Hs. apply andb_false_r.
  - by rewrite Hi.
  - rewrite (strict_eq_false _ _ Hp). by rewrite andb_false_r.
Qed.

(** X19: a client that sends the header value back as [index] (the
    allocator's value in decimal, not stale) is sent to the blocking branch,
    which answers without the header, exactly when the entry's [modifyIndex]
    is the allocator's value, that is when nothing has taken an index since
    the key was written; otherwise the read answers at once. *)
Theorem header_as_index (st : Store L) (k : string) (v : KVPair.t)
    (w : option string) :
  kv st !! k = Some v →
  consul_index_header
    (kv_get list_prefix
       (mkGetReq k None (Some (toString (consulIndex st))) w None) st) = None
  ↔ KVPair.modifyIndex v = consulIndex st.
Proof.
  intros Hv. unfold kv_get. simpl is_true. cbv iota. simpl get_key.
  rewrite (stored_entry_readable st _ v Hv), Hv.
  unfold is_blocking. simpl index. simpl stale.
  assert (truthy (Some (toString (consulIndex st))) = true) as ->.
  { pose proof (toString_truthy (consulIndex st)).
    simpl. by destruct (toString (consulIndex st)). }
  simpl default. rewrite parseInt_toString. simpl.
  case_bool_decide; simpl; split; intros; done.
Qed.

(** X20: after the destroy of a session whose behavior is ["delete"], a
    read of a key the session held answers 404. *)
Theorem destroy_then_get (st : Store L) (a : string) (s : Session.t)
    (g : GetReq) (e : KVPair.t) :
  sessions st !! a = Some s →
  Session.behavior s = "delete" →
  kv st !! get_key g = Some e →
  KVPair.session e = Some a →
  is_true (recurse g) = false →
  kv_get list_prefix g (session_destroy a st).2 = mkGetReply 404 None [] None.
Proof.
  intros Hs Hb He Ha Hr.
  apply kv_get_missing; [done|by apply (stored_entry_readable st _ e)|].
  rewrite (session_destroy_found st a s Hs). simpl.
  rewrite decide_True by done.
  rewrite (sweep_map_to_list a _ _ e He). by rewrite decide_True.
Qed.

End Reads.

(** ** The index allocator *)



(** ** Delete *)

(** X2: delete asks for no session and looks at no lock: on a key the
    store writes - every key that has an entry is one - it answers [true],
    removes the key, and leaves the other keys, the sessions and the index
    as they were; on a key the store does not write (too large) it ends in
    a 500 and changes nothing. *)
Theorem kv_delete_effects (key : string) (st : Store L) :
  (writable_key L KvKeys key = true →
     (kv_delete key st).1 = Json true
     ∧ kv (kv_delete key st).2 !! key = None
     ∧ (∀ k, k ≠ key → kv (kv_delete key st).2 !! k = kv st !! k)
     ∧ sessions (kv_delete key st).2 = sessions st
     ∧ consulIndex (kv_delete key st).2 = consulIndex st)
  ∧ (writable_key L KvKeys key = false →
     kv_delete key st = (TypeError, st))
  ∧ (is_Some (kv st !! key) → writable_key L KvKeys key = true).
Proof.
  unfold kv_delete. split; [|split].
  - intros ->. simpl. repeat split.
    + apply lookup_delete_eq.
    + intros k Hk. by apply lookup_delete_ne.
  - by intros ->.
  - intros [e He]. by apply (stored_entry_accepted st key e).
Qed.

(** X3: delete is idempotent on the keys the store writes: deleting a key
    that has no entry answers [true] and returns the store unchanged, so a
    second delete of the same key changes nothing. *)
Theorem kv_delete_idempotent (key : string) (st : Store L) :
  writable_key L KvKeys key = true →
  (kv st !! key = None → kv_delete key st = (Json true, st))
  ∧ kv_delete key (kv_delete key st).2 = (Json true, (kv_delete key st).2).
Proof.
  intros Hw. unfold kv_delete. rewrite Hw. simpl. rewrite ?Hw. split.
  - intros H. f_equal. apply store_eq; simpl; [done| |done].
    by apply delete_id.
  - f_equal. apply store_eq; simpl; [done| |done].
    apply delete_delete_eq.
Qed.

(** ** What a put leaves alone *)

(** X6: a put, successful or not, never changes a session and never changes
    the entry of a key other than its own. *)
Theorem kv_put_frame (r : PutReq) (st : Store L) :
  sessions (kv_put r st).2 = sessions st
  ∧ (∀ k, k ≠ put_key r → kv (kv_put r st).2 !! k = kv st !! k).
Proof.
  split; [apply kv_put_sessions|]. intros k Hk. by apply kv_put_lookup_ne.
Qed.

(** ** Locks *)

Lemma check_session_conflict st key a b e s :
  kv st !! key = Some e → KVPair.session e = Some a → a ≠ "" →
  b ≠ "" → b ≠ a → sessions st !! b = Some s →
  check_session st key (Some b) = Some (Json false).
Proof.
  intros He Ha Hane Hbne Hab Hb. unfold check_session.
  destruct b as [|c b]; [done|]. simpl truthy_string. cbv iota.
  rewrite (stored_session_readable st _ s Hb), Hb.
  rewrite (stored_entry_readable st _ e He), He, Ha.
  destruct a as [|c' a]; [done|]. simpl truthy.
  rewrite bool_decide_false by congruence. done.
Qed.

Lemma check_session_unknown st key b :
  b ≠ "" → sessions st !! b = None →
  check_session st key (Some b) =
  Some (if readable_key L SessionKeys b
        then HTTPException 400 "Invalid session" else TypeError).
Proof.
  intros Hbne Hb. unfold check_session.
  destruct b as [|c b]; [done|]. simpl truthy_string. cbv iota.
  rewrite Hb. by destruct (readable_key _ _ _).
Qed.

(** X7: a key held by session [a] is closed to every other session: a put
    on it whose token (acquire or release) is another stored session [b]
    answers [false] and changes nothing, whatever its cas and flags. *)
Theorem put_lock_conflict (r : PutReq) (st : Store L) (e : KVPair.t)
    (a b : string) :
  kv st !! put_key r = Some e →
  KVPair.session e = Some a → a ≠ "" →
  put_sessionId r = Some b → b ≠ "" → b ≠ a →
  is_Some (sessions st !! b) →
  kv_put r st = (Json false, st).
Proof.
  intros He Ha Hane Hr Hbne Hab [s Hb].
  apply kv_put_stopped. rewrite Hr.
  by apply (check_session_conflict st (put_key r) a b e s).
Qed.

(** X8: once a put carrying the token [a] has succeeded, the next put on
    that key carrying any other token does not succeed and changes nothing:
    it answers [false] when its token is a stored session, 400 when it is
    not and the store reads it as a key, and ends in a 500 when the token is
    too large for a key. *)
Theorem acquire_locks_out_others (r1 r2 : PutReq) (st : Store L)
    (a b : string) :
  (kv_put r1 st).1 = Json true →
  put_sessionId r1 = Some a → a ≠ "" →
  put_key r2 = put_key r1 →
  put_sessionId r2 = Some b → b ≠ "" → b ≠ a →
  kv_put r2 (kv_put r1 st).2 =
  (if decide (is_Some (sessions st !! b)) then Json false
   else if readable_key L SessionKeys b
        then HTTPException 400 "Invalid session" else TypeError,
   (kv_put r1 st).2).
Proof.
  intros Ht Ha Hane Hkey Hb Hbne Hab.
  apply kv_put_stopped. rewrite Hb, Hkey.
  case_decide as Hs.
  - destruct Hs as [s Hs].
    apply (check_session_conflict _ _ a b (put_entry r1 st) s); try done.
    + by apply kv_put_true_lookup.
    + by rewrite kv_put_sessions.
  - apply check_session_unknown; [done|].
    rewrite kv_put_sessions. by apply eq_None_not_Some.
Qed.

(** X9: the holder is not locked out by its own lock: a put on a key held
    by the stored session [a], carrying [a] as its token and no cas,
    succeeds exactly when the store accepts the new entry, and then leaves
    [a] the holder. *)
Theorem holder_writes_again (r : PutReq) (st : Store L) (e : KVPair.t)
    (a : string) :
  kv st !! put_key r = Some e →
  KVPair.session e = Some a →
  put_sessionId r = Some a →
  is_Some (sessions st !! a) →
  truthy (cas r) = false →
  ((kv_put r st).1 = Json true ↔ accepts_put r st)
  ∧ (accepts_put r st →
     KVPair.session <$> kv (kv_put r st).2 !! put_key r = Some (Some a)).
Proof.
  intros He Ha Hr [s Hs] Hc.
  assert ((kv_put r st).1 = Json true ↔ accepts_put r st) as Hiff.
  { rewrite kv_put_true_iff.
    assert (check_session st (put_key r) (put_sessionId r) = None) as ->.
    { unfold check_session. rewrite Hr.
      destruct (truthy_string a); [|done].
      rewrite (stored_session_readable st _ s Hs), Hs.
      rewrite (stored_entry_readable st _ e He), He, Ha.
      rewrite bool_decide_true by done. by rewrite andb_false_r. }
    assert (check_cas st (put_key r) (cas r) = None) as ->.
    { unfold check_cas. destruct (cas r) as [c|]; [|done].
      simpl in Hc. by rewrite Hc. }
    tauto. }
  split; [done|]. intros Ht%Hiff.
  by rewrite (kv_put_true_lookup _ _ Ht), <- Hr.
Qed.


(** ** Sessions that are not there *)

(** X11: a destroyed session is gone at once: right after a successful
    destroy a renewal is answered 404, a second destroy is answered 404, and
    a put that carries the session as its token is answered 400; none of the
    three changes the store. *)
Theorem destroyed_session_gone (st : Store L) (sid : string) (s : Session.t)
    (now : Z) :
  sessions st !! sid = Some s →
  session_renew sid now (session_destroy sid st).2
  = (HTTPException 404 "Session not found", (session_destroy sid st).2)
  ∧ session_destroy sid (session_destroy sid st).2
    = (HTTPException 404 "Session not found", (session_destroy sid st).2)
  ∧ (∀ r, put_sessionId r = Some sid → sid ≠ "" →
       kv_put r (session_destroy sid st).2
       = (HTTPException 400 "Invalid session", (session_destroy sid st).2)).
Proof.
  intros Hs. pose proof (stored_session_readable st sid s Hs) as Hread.
  assert (sessions (session_destroy sid st).2 !! sid = None) as Hgone.
  { rewrite (session_destroy_found st sid s Hs). simpl.
    apply lookup_delete_eq. }
  split; [|split].
  - by rewrite (session_renew_absent _ _ _ Hgone), Hread.
  - by rewrite (session_destroy_absent _ _ Hgone), Hread.
  - intros r Hr Hne. apply kv_put_stopped. rewrite Hr.
    by rewrite (check_session_unknown _ _ _ Hne Hgone), Hread.
Qed.

Lemma step_session_absent st sid rq :
  sessions st !! sid = None → creates sid rq = false →
  sessions (step st rq) !! sid = None.
Proof.
  intros Hs Hc. destruct rq as [uuid now body|sid' now|sid'|r|key]; simpl.
  - unfold session_create. destruct (Behavior body); [|done].
    simpl in Hc. apply bool_decide_eq_false in Hc.
    destruct (decide _); simpl; [|done]. by rewrite lookup_insert_ne.
  - unfold session_renew. repeat case_match; simpl; try done.
    rewrite lookup_insert_ne; [done|]. intros ->. congruence.
  - unfold session_destroy. repeat case_match; simpl; try done.
    apply lookup_delete_None. by right.
  - by rewrite kv_put_sessions.
  - unfold kv_delete. by case_match.
Qed.

(** X12: only a create brings a session into the store: along a run in
    which no create is handed the id [sid], a session that is absent stays
    absent - renew, destroy, put and delete never make it reappear. *)
Theorem absent_session_stays_absent (st : Store L) (sid : string)
    (rqs : list Request) :
  sessions st !! sid = None →
  Forall (λ rq, creates sid rq = false) rqs →
  sessions (run st rqs) !! sid = None.
Proof.
  unfold run. intros Hs Hall. revert st Hs.
  induction Hall as [|rq rqs Hrq Hall IH]; intros st Hs; simpl; [done|].
  by apply IH, step_session_absent.
Qed.

Lemma step_key_absent st key rq :
  kv st !! key = None → puts key rq = false →
  kv (step st rq) !! key = None.
Proof.
  intros Hk Hp. destruct rq as [uuid now body|sid now|sid|r|key']; simpl.
  - unfold session_create. by repeat case_match.
  - unfold session_renew. by repeat case_match.
  - unfold session_destroy. repeat case_match; try done.
    apply eq_None_not_Some. intros [e He%destroyed_lookup_Some]. congruence.
  - simpl in Hp. apply bool_decide_eq_false in Hp.
    by rewrite kv_put_lookup_ne.
  - unfold kv_delete. case_match; simpl; [|done].
    apply lookup_delete_None. by right.
Qed.

(** X13: only a put on the key brings an entry into the store: along a run
    with no put on [key], a key that has no entry keeps having none. *)
Theorem absent_key_stays_absent (st : Store L) (key : string)
    (rqs : list Request) :
  kv st !! key = None →
  Forall (λ rq, puts key rq = false) rqs →
  kv (run st rqs) !! key = None.
Proof.
  unfold run. intros Hk Hall. revert st Hk.
  induction Hall as [|rq rqs Hrq Hall IH]; intros st Hk; simpl; [done|].
  by apply IH, step_key_absent.
Qed.

(** ** What the objects of a run look like *)

(** Dropping objects, or replacing a session by one with the same id, index
    and behavior, keeps a store coherent, also when the index advances. *)
Lemma coherent_keep st st' :
  coherent st →
  consulIndex st ≤ consulIndex st' →
  (∀ k e, kv st' !! k = Some e → kv st !! k = Some e) →
  (∀ k s', sessions st' !! k = Some s' →
     ∃ s, sessions st !! k = Some s
          ∧ Session.id s' = Session.id s
          ∧ Session.createIndex s' = Session.createIndex s
          ∧ Session.behavior s' = Session.behavior s) →
  coherent st'.
Proof.
  intros (H1 & He & Hs & Hu1 & Hu2 & Hu3) Hle Hkv Hss.
  split; [lia|]. split; [|split; [|split; [|split]]].
  - intros k e Hk%Hkv. apply He in Hk. unfold entry_shape in *.
    intuition lia.
  - intros k s' (s & Hk & Hid & Hci & Hb)%Hss.
    apply Hs in Hk. unfold session_shape in *.
    rewrite Hid, Hci, Hb. intuition lia.
  - intros k1 k2 e1 e2 Hk1%Hkv Hk2%Hkv. by apply Hu1.
  - intros k1 k2 s1 s2 (s1' & Hk1 & _ & Hc1 & _)%Hss
      (s2' & Hk2 & _ & Hc2 & _)%Hss Heq.
    apply (Hu2 k1 k2 s1' s2' Hk1 Hk2). congruence.
  - intros k1 k2 e s' Hk1%Hkv (s & Hk2 & _ & Hc & _)%Hss.
    rewrite Hc. by apply (Hu3 k1 k2).
Qed.

(** Writing an entry at the next index keeps a store coherent. *)
Lemma coherent_put r st st' :
  coherent st →
  kv st' = <[put_key r := put_entry r st]> (kv st) →
  sessions st' = sessions st →
  consulIndex st' = consulIndex st + 1 →
  coherent st'.
Proof.
  intros (H1 & He & Hs & Hu1 & Hu2 & Hu3) Hkv Hss Hi.
  split; [lia|]. unfold indices_unique. rewrite Hkv, Hss.
  split; [|split; [|split; [|split]]].
  - intros k e [[<- <-]|[Hne Hk]]%lookup_insert_Some.
    + unfold entry_shape. simpl. repeat split; lia.
    + apply He in Hk. unfold entry_shape in *. intuition lia.
  - intros k s Hk. apply Hs in Hk.
    unfold session_shape in *. intuition lia.
  - intros k1 k2 e1 e2 [[<- <-]|[Hn1 Hk1]]%lookup_insert_Some
      [[<- <-]|[Hn2 Hk2]]%lookup_insert_Some; simpl; intros Heq.
    + done.
    + apply He in Hk2. unfold entry_shape in Hk2. lia.
    + apply He in Hk1. unfold entry_shape in Hk1. lia.
    + by apply (Hu1 k1 k2 e1 e2).
  - done.
  - intros k1 k2 e s [[<- <-]|[Hn1 Hk1]]%lookup_insert_Some Hk2; simpl.
    + apply Hs in Hk2. unfold session_shape in Hk2. lia.
    + by apply (Hu3 k1 k2).
Qed.

(** Filing a session at the next index keeps a store coherent. *)
Lemma coherent_create uuid now b beh st st' :
  coherent st →
  sessions st' = <[uuid := new_session uuid now b beh st]> (sessions st) →
  kv st' = kv st →
  consulIndex st' = consulIndex st + 1 →
  coherent st'.
Proof.
  intros (H1 & He & Hs & Hu1 & Hu2 & Hu3) Hss Hkv Hi.
  split; [lia|]. unfold indices_unique. rewrite Hkv, Hss.
  split; [|split; [|split; [|split]]].
  - intros k e Hk. apply He in Hk.
    unfold entry_shape in *. intuition lia.
  - intros k s [[<- <-]|[Hne Hk]]%lookup_insert_Some.
    + unfold session_shape. simpl.
      split; [done|]. split; [lia|apply toLowerCase_idem].
    + apply Hs in Hk. unfold session_shape in *. intuition lia.
  - done.
  - intros k1 k2 s1 s2 [[<- <-]|[Hn1 Hk1]]%lookup_insert_Some
      [[<- <-]|[Hn2 Hk2]]%lookup_insert_Some; simpl; intros Heq.
    + done.
    + apply Hs in Hk2. unfold session_shape in Hk2. lia.
    + apply Hs in Hk1. unfold session_shape in Hk1. lia.
    + by apply (Hu2 k1 k2 s1 s2).
  - intros k1 k2 e s Hk1 [[<- <-]|[Hn2 Hk2]]%lookup_insert_Some; simpl.
    + apply He in Hk1. unfold entry_shape in Hk1. lia.
    + by apply (Hu3 k1 k2).
Qed.

Lemma coherent_initial : coherent (initial : Store L).
Proof.
  split; [simpl; lia|]. split; [|split; [|split; [|split]]]; simpl;
    intros; by simplify_map_eq.
Qed.

Lemma coherent_step st rq : coherent st → coherent (step st rq).
Proof.
  intros Hc. destruct rq as [uuid now body|sid now|sid|r|key]; simpl.
  - unfold session_create. destruct (Behavior body) as [b|]; [|done].
    destruct (decide _); simpl.
    + by apply (coherent_create uuid now body b st).
    + apply (coherent_keep st); simpl; [done|lia|done|eauto 10].
  - destruct (sessions st !! sid) as [s|] eqn:Hs.
    + destruct (session_renew_found st sid s now Hs) as (_ & Hss & Hkv & Hi).
      apply (coherent_keep st); [done|lia|by rewrite Hkv|].
      rewrite Hss.
      intros k s' [[<- <-]|[Hne Hk]]%lookup_insert_Some; eauto 10.
    + rewrite (session_renew_absent st sid now Hs). done.
  - destruct (sessions st !! sid) as [s|] eqn:Hs.
    + rewrite (session_destroy_found st sid s Hs). simpl.
      apply (coherent_keep st); [done|simpl; lia| |].
      * intros k e. apply destroyed_lookup_Some.
      * simpl. intros k s' [_ Hk]%lookup_delete_Some. eauto 10.
    + rewrite (session_destroy_absent st sid Hs). done.
  - destruct (decide ((kv_put r st).1 = Json true)) as [Ht|Hf].
    + apply (coherent_put r st); [done|..].
      * by apply kv_put_true_kv.
      * apply kv_put_sessions.
      * by apply kv_put_true_index.
    + apply (coherent_keep st); [done|..].
      * rewrite kv_put_index. case_bool_decide; lia.
      * by rewrite (kv_put_not_true_kv _ _ Hf).
      * rewrite kv_put_sessions. eauto 10.
  - unfold kv_delete. case_match; [|done]. simpl.
    apply (coherent_keep st); simpl; [done|lia| |eauto 10].
    by intros k e [_ Hk]%lookup_delete_Some.
Qed.

Lemma reachable_coherent st : reachable st → coherent st.
Proof.
  intros [rqs <-]. unfold run.
  assert (∀ st0 : Store L, coherent st0 → coherent (foldl step st0 rqs))
    as Hrun.
  { induction rqs as [|rq rqs IH]; intros st0 H0; simpl; [done|].
    by apply IH, coherent_step. }
  apply Hrun, coherent_initial.
Qed.

(** X14: in every store a run from the empty database can reach, each entry
    is filed under its own key, has [createIndex] equal to [modifyIndex],
    has [lockIndex] 0 (acquiring a lock is never counted), and carries an
    index between 2 and the allocator's value. *)
Theorem reachable_entry_shape (st : Store L) (k : string) (e : KVPair.t) :
  reachable st → kv st !! k = Some e → entry_shape st k e.
Proof. intros (_ & He & _)%reachable_coherent. apply He. Qed.

(** X15: in every reachable store each session is filed under its own id,
    carries an index between 2 and the allocator's value, and has a
    behavior that lower-casing does not change. *)
Theorem reachable_session_shape (st : Store L) (k : string) (s : Session.t) :
  reachable st → sessions st !! k = Some s → session_shape st k s.
Proof. intros (_ & _ & Hs & _)%reachable_coherent. apply Hs. Qed.

(** X16: in every reachable store no index is shared: two entries under
    different keys have different [modifyIndex], two sessions under
    different ids have different [createIndex], and no entry's
    [modifyIndex] is a session's [createIndex]. *)
Theorem reachable_indices_unique (st : Store L) :
  reachable st → indices_unique st.
Proof. by intros (_ & _ & _ & Hu)%reachable_coherent. Qed.

(** ** Sessions *)

(** X21: renewing twice leaves the store as one renewal at the later time
    would: the second renewal succeeds, returns the session with only
    [lastRenewTime] changed, and the earlier time is forgotten. *)
Theorem renew_twice (st : Store L) (sid : string) (s : Session.t)
    (t1 t2 : Z) :
  sessions st !! sid = Some s →
  session_renew sid t2 (session_renew sid t1 st).2
  = (Json [Session.renewed s t2], (session_renew sid t2 st).2).
Proof.
  intros Hs.
  destruct (session_renew_found st sid s t1 Hs) as (_ & Hss1 & Hkv1 & Hi1).
  destruct (session_renew_found st sid s t2 Hs) as (_ & Hss2 & Hkv2 & Hi2).
  assert (sessions (session_renew sid t1 st).2 !! sid
          = Some (Session.renewed s t1)) as Hs1.
  { rewrite Hss1. apply lookup_insert_eq. }
  destruct (session_renew_found _ sid _ t2 Hs1) as (Hr & Hss & Hkv & Hi).
  rewrite (surjective_pairing (session_renew sid t2 _)). f_equal.
  - exact Hr.
  - apply store_eq.
    + rewrite Hss, Hss1, Hss2. by rewrite insert_insert_eq.
    + congruence.
    + congruence.
Qed.

(** X22: creating a session under an id that is not in use and destroying
    it again, when the store accepted the session, gives back the sessions
    and the entries as they were, provided no entry was already marked as
    held by that id; the only trace is the index, advanced by one. *)
Theorem create_then_destroy (uuid : string) (now : Z) (b : CreateBody)
    (st : Store L) :
  sessions st !! uuid = None →
  (session_create uuid now b st).1 = Json uuid →
  (∀ k e, kv st !! k = Some e → KVPair.session e ≠ Some uuid) →
  session_destroy uuid (session_create uuid now b st).2
  = (Json true, with_index st (consulIndex st + 1)).
Proof.
  intros Hs Hok Hfree. revert Hok. unfold session_create.
  destruct (Behavior b) as [beh|]; [|done].
  destruct (decide _) as [H|H]; [|done]. intros _. simpl.
  set (s := new_session uuid now b beh st).
  rewrite (session_destroy_found _ uuid s) by (simpl; apply lookup_insert_eq).
  f_equal. apply store_eq; simpl.
  - by apply delete_insert_id.
  - case_decide; [|done]. by apply sweep_nothing_held.
  - done.
Qed.

(** X23: a session that has just been created can take the lock of a key
    that has no entry or no holder: when the store accepted the session, a
    put carrying its id as token and no cas succeeds exactly when the store
    accepts the entry, which is then held by the session and carries the
    second index after the one before the create. *)
Theorem create_then_acquire (uuid : string) (now : Z) (b : CreateBody)
    (r : PutReq) (st : Store L) :
  (session_create uuid now b st).1 = Json uuid →
  put_sessionId r = Some uuid →
  truthy (cas r) = false →
  (∀ e, kv st !! put_key r = Some e → truthy (KVPair.session e) = false) →
  ((kv_put r (session_create uuid now b st).2).1 = Json true
   ↔ accepts_put r (session_create uuid now b st).2)
  ∧ (accepts_put r (session_create uuid now b st).2 →
     kv (kv_put r (session_create uuid now b st).2).2 !! put_key r
     = Some (KVPair.mk (consulIndex st + 2) (parsed_flags r) (put_key r) 0
                       (consulIndex st + 2) (text r) (Some uuid))).
Proof.
  intros Hok Hr Hc Hfree.
  assert (∃ beh, Behavior b = Some beh
           ∧ writable_key L SessionKeys uuid = true
           ∧ storable_session L (new_session uuid now b beh st) = true)
    as (beh & Hb & Hacc).
  { revert Hok. unfold session_create.
    destruct (Behavior b) as [beh|]; [|done].
    destruct (decide _) as [H|H]; [|done]. eauto. }
  destruct (session_create_accepted st uuid now b beh Hb Hacc)
    as (_ & Hss & Hkv & Hi).
  set (st1 := (session_create uuid now b st).2) in *.
  assert (sessions st1 !! uuid = Some (new_session uuid now b beh st)) as Hs1.
  { rewrite Hss. apply lookup_insert_eq. }
  assert ((kv_put r st1).1 = Json true ↔ accepts_put r st1) as Hiff.
  { rewrite kv_put_true_iff.
    assert (check_cas st1 (put_key r) (cas r) = None) as ->.
    { unfold check_cas. destruct (cas r) as [c|]; [|done].
      simpl in Hc. by rewrite Hc. }
    destruct (readable_key L KvKeys (put_key r)) eqn:Hread.
    - assert (check_session st1 (put_key r) (put_sessionId r) = None) as ->.
      { unfold check_session. rewrite Hr.
        destruct (truthy_string uuid); [|done].
        rewrite (stored_session_readable st1 _ _ Hs1), Hs1, Hkv, Hread.
        destruct (kv st !! put_key r) as [e|] eqn:He; [|done].
        rewrite (Hfree e) by done. reflexivity. }
      tauto.
    - split; [tauto|]. intros [Hw _].
      apply writable_readable in Hw. congruence. }
  split; [done|]. intros Ht%Hiff.
  rewrite (kv_put_true_lookup _ _ Ht). unfold put_entry. rewrite Hr, Hi.
  by replace (consulIndex st + 1 + 1) with (consulIndex st + 2) by lia.
Qed.

(** ** Parameters of put *)

(** X24: what a successful put stores as flags: 0 when the parameter is
    missing or empty, the integer when the parameter is the decimal numeral
    of an integer that is a double (magnitude at most 2^53), and [NaN] when
    the parameter does not start with a number. *)
Theorem put_flags_stored (r : PutReq) (st : Store L) :
  (kv_put r st).1 = Json true →
  ∃ e', kv (kv_put r st).2 !! put_key r = Some e'
    ∧ (truthy (put_flags r) = false → KVPair.flags e' = Num 0)
    ∧ (∀ z, Z.abs z ≤ safe → put_flags r = Some (toString z) →
            KVPair.flags e' = Num z)
    ∧ (∀ f, put_flags r = Some f → f ≠ "" → parseInt f = NaN →
           KVPair.flags e' = NaN).
Proof.
  intros Ht. rewrite (kv_put_true_lookup _ _ Ht).
  eexists. split; [done|]. simpl. unfold parsed_flags, or_else.
  split; [|split].
  - by intros ->.
  - intros z _ ->. pose proof (toString_truthy z) as Hz. simpl.
    destruct (toString z) eqn:Hs; [done|]. simpl.
    rewrite <- Hs. apply parseInt_toString.
  - intros f -> Hne Hnan. destruct f; [done|]. by simpl.
Qed.

(** X25: a put whose [cas] is a non-empty string that does not start with
    a number never succeeds and changes nothing, whatever the store. *)
Theorem put_cas_not_a_number (r : PutReq) (st : Store L) (c : string) :
  cas r = Some c → c ≠ "" → parseInt c = NaN →
  (kv_put r st).1 ≠ Json true ∧ (kv_put r st).2 = st.
Proof.
  intros Hc Hne Hnan.
  assert (∃ reply, check_cas st (put_key r) (cas r) = Some reply)
    as [reply Hcas].
  { unfold check_cas. rewrite Hc. destruct c; [done|]. simpl.
    rewrite Hnan. simpl. repeat case_match; eauto. }
  unfold kv_put.
  destruct (check_session _ _ _) as [reply'|] eqn:Hs; simpl.
  - split; [|done]. by apply check_session_not_true in Hs.
  - rewrite Hcas. simpl. split; [|done].
    by apply check_cas_not_true in Hcas.
Qed.

(** X26: an empty [acquire], an empty [flags] and an empty [cas] parameter
    are each treated as if the parameter were missing: the put answers the
    same and leaves the same store. *)
Theorem put_empty_parameters (k : string) (acq rel fl c : option string)
    (t : string) (st : Store L) :
  kv_put (mkPutReq k (Some "") rel fl c t) st
  = kv_put (mkPutReq k None rel fl c t) st
  ∧ kv_put (mkPutReq k acq rel (Some "") c t) st
    = kv_put (mkPutReq k acq rel None c t) st
  ∧ kv_put (mkPutReq k acq rel fl (Some "") t) st
    = kv_put (mkPutReq k acq rel fl None t) st.
Proof. repeat split. Qed.

End Properties.

(** * The claims and the properties at concrete requests

    What follows runs the handlers under the limits [sample]. *)

(** ** Compare-and-swap *)



(** The session check comes first: with ["a"] held by ["s1"] at index 3, a
    put by ["s2"] with the matching [cas=3] is answered [false]. *)
Example cas_put_stopped_by_lock_conflict :
  KVPair.modifyIndex <$> kv (store_two_sessions "delete") !! "a" = Some 3
  ∧ (kv_put (mkPutReq "a" (Some "s2") None None (Some "3") "x")
       (store_two_sessions "delete")).1 = Json false
  ∧ (kv_put (mkPutReq "a" (Some "s1") None None (Some "3") "x")
       (store_two_sessions "delete")).1 = Json true.
Proof. repeat split. Qed.

(** The bound on the stored indices cannot be dropped: after two puts and a
    restart, ["a"] sits at index 3 while the allocator is back at 1, and the
    next put moves its [modifyIndex] down to 2. *)
Example put_after_restart_lowers_modifyIndex :
  let st := restart (run store_empty [KvPut (plain_put "a" "v");
                                      KvPut (plain_put "a" "w")]) in
  ¬ indices_bounded st
  ∧ KVPair.modifyIndex <$> kv st !! "a" = Some 3
  ∧ KVPair.modifyIndex <$> kv (kv_put (plain_put "a" "x") st).2 !! "a" = Some 2.
Proof.
  split; [|split; reflexivity].
  intros H. specialize (H "a" _ eq_refl). simpl in H. lia.
Qed.

(** ** Lock holder written by put *)

(** C2, as worded, fails: session ["s1"] holds ["a"]; a put with
    [release=s1] returns [true] and the stored entry is still held by
    ["s1"]. *)
Lemma release_put_keeps_holder :
  ¬ Stated.lock_holder_rule (store_locked "release")
      (release_put "a" "s1" "v2").
Proof.
  intros H. destruct H as (e' & He' & _ & Hrel & _); [reflexivity|].
  specialize (Hrel "s1" _ eq_refl eq_refl eq_refl).
  vm_compute in He'. injection He' as <-. discriminate.
Qed.

Lemma put_lock_holder_witness :
  ∃ e', kv (kv_put (release_put "a" "s1" "v2") (store_locked "release")).2
          !! "a" = Some e'
    ∧ KVPair.session e' = Some "s1".
Proof.
  destruct (put_lock_holder (release_put "a" "s1" "v2") (store_locked "release"))
    as (e' & He' & _ & _ & Hrel & _); [reflexivity|].
  exists e'. split; [exact He'|]. by apply Hrel.
Defined.

(** ** Destroy *)

(** C3, as worded, fails: ["s1"] was created with behavior Release and holds
    ["a"]; after destroy the entry is still held by ["s1"]. *)
Lemma destroy_release_keeps_holder :
  ¬ Stated.destroy_rule (store_locked "Release") "s1".
Proof.
  intros H.
  destruct (H _ eq_refl) as (_ & _ & Hrel).
  destruct (Hrel eq_refl "a" _ eq_refl eq_refl) as (e' & He' & _ & Hnone).
  vm_compute in He'. injection He' as <-. discriminate.
Qed.

Lemma destroy_cascade_witness :
  kv (session_destroy "s1" (store_locked "Delete")).2 !! "a" = None
  ∧ kv (session_destroy "s1" (store_locked "Delete")).2 !! "b"
    = kv (store_locked "Delete") !! "b"
  ∧ kv (session_destroy "s1" (store_locked "Release")).2
    = kv (store_locked "Release").
Proof.
  destruct (destroy_cascade (store_locked "Delete") "s1" _ eq_refl)
    as (_ & _ & _ & Hdel & _).
  destruct (destroy_cascade (store_locked "Release") "s1" _ eq_refl)
    as (_ & _ & _ & _ & Hrel).
  split; [|split].
  - by rewrite (Hdel eq_refl "a" _ eq_refl).
  - by rewrite (Hdel eq_refl "b" _ eq_refl).
  - apply Hrel. discriminate.
Defined.

(** ** Indices written by put *)

(** C4, as worded, fails: ["a"] was created at index 2; the next put gives
    it [createIndex] 3. *)
Lemma put_rewrites_createIndex :
  ¬ Stated.index_rule store_a (plain_put "a" "v2").
Proof.
  intros H.
  destruct (H _ eq_refl eq_refl) as (e' & He' & Hc & _).
  vm_compute in He'. injection He' as <-. discriminate.
Qed.

Lemma put_indices_witness :
  ∃ e', kv (kv_put (plain_put "a" "v2") store_a).2 !! "a" = Some e'
    ∧ 2 < KVPair.modifyIndex e'
    ∧ KVPair.modifyIndex e' = 3
    ∧ KVPair.createIndex e' = KVPair.modifyIndex e'.
Proof.
  refine (put_indices store_a (plain_put "a" "v2") _ _ eq_refl eq_refl).
  apply (bool_decide_unpack _). vm_compute. exact I.
Defined.

(** ** Sessions and time *)

(** C5, as worded, fails: ["s1"] was created at time 0 with a TTL of 10
    seconds; a million milliseconds later its renewal is answered with the
    session, not with 404. *)
Lemma renew_after_deadline_succeeds :
  ¬ Stated.expiry_rule (store_locked "delete") "s1" 1000000.
Proof.
  intros H.
  destruct (H _ eq_refl) as [Hrenew _].
  - vm_compute. reflexivity.
  - vm_compute in Hrenew. discriminate.
Qed.

Lemma session_lookup_ignores_time_witness :
  Stated.deadline_passed
    (Session.mk "s1" "n" "delete" (Num 10) 2 0) 1000000
  ∧ (session_renew "s1" 1000000 (store_locked "delete")).1
    = Json [Session.mk "s1" "n" "delete" (Num 10) 2 1000000]
  ∧ sessions (session_renew "s1" 1000000 (store_locked "delete")).2 !! "s1"
    = Some (Session.mk "s1" "n" "delete" (Num 10) 2 1000000)
  ∧ (session_renew "s9" 1000000 (store_locked "delete")).1
    = HTTPException 404 "Session not found"
  ∧ (kv_put (acquire_put "c" "s1" "v") (store_locked "delete")).1
    ≠ HTTPException 400 "Invalid session".
Proof.
  destruct (session_lookup_ignores_time (store_locked "delete") "s1" 1000000)
    as (Hrenew & _ & _ & Hput).
  destruct (session_lookup_ignores_time (store_locked "delete") "s9" 1000000)
    as (_ & H404 & _ & _).
  destruct (Hrenew _ eq_refl) as (Hreply & Hstored & _).
  split; [vm_compute; reflexivity|].
  split; [exact Hreply|]. split; [exact Hstored|].
  split; [by apply H404|].
  destruct (Hput (acquire_put "c" "s1" "v") eq_refl) as [Hto _]; [done|].
  intros H400. apply Hto in H400 as [H400 _].
  vm_compute in H400. discriminate.
Defined.

(** ** Puts that do not succeed *)



(** ** Blocking reads *)

(** C7, as worded, fails: a read of ["a"] with [index=2] and [wait=1000]
    arrives while ["a"] is at index 2; while it waits, a put writes ["a"]
    at index 3; the read answers the entry of index 2, not the one it would
    find by reading again. *)
Lemma blocking_get_ignores_write :
  ¬ Stated.blocking_rule no_scan store_a
      (mkGetReq "a" None (Some "2") (Some "1000") None)
      [KvPut (plain_put "a" "w")].
Proof.
  intros H.
  destruct (H (KVPair.mk 2 (Num 0) "a" 0 2 "v" None)
              eq_refl eq_refl eq_refl eq_refl) as (_ & _ & Hread).
  specialize (Hread (KVPair.mk 3 (Num 0) "a" 0 3 "w" None) eq_refl).
  simpl in Hread. assert (3 ≠ 2) as Hne by lia.
  apply Hread in Hne. vm_compute in Hne. discriminate.
Qed.

Lemma blocking_get_sleeps_then_returns_witness :
  (kv_get_across no_scan (mkGetReq "a" None (Some "2") (Some "1000") None)
     store_a [KvPut (plain_put "a" "w")]).1
  = mkGetReply 200 None [KVPair.mk 2 (Num 0) "a" 0 2 "v" None]
      (Some (Num 1000))
  ∧ KVPair.value <$>
      kv (kv_get_across no_scan
            (mkGetReq "a" None (Some "2") (Some "1000") None)
            store_a [KvPut (plain_put "a" "w")]).2 !! "a"
    = Some "w".
Proof.
  destruct (blocking_get_sleeps_then_returns no_scan
              (mkGetReq "a" None (Some "2") (Some "1000") None) store_a
              (KVPair.mk 2 (Num 0) "a" 0 2 "v" None)
              [KvPut (plain_put "a" "w")] eq_refl eq_refl eq_refl)
    as (Hreply & Hstore & _).
  split; [exact Hreply|]. rewrite Hstore. reflexivity.
Defined.

(** ** Session creation *)



(** ** The index header of reads *)

(** C9: the claim asks for the index on the response of a blocking read.
    With ["a"] at [modifyIndex] 2, the read [?index=2&wait=1000] is answered
    200 with the entry and without [X-Consul-Index], while the same read
    without [index] carries the header with the allocator's value. *)
Theorem blocking_get_omits_index_header
    (list_prefix : gmap string KVPair.t -> string -> option (list KVPair.t)) :
  consul_index_header
    (kv_get list_prefix (mkGetReq "a" None (Some "2") (Some "1000") None)
       store_a) = None
  ∧ status
      (kv_get list_prefix (mkGetReq "a" None (Some "2") (Some "1000") None)
         store_a) = 200
  ∧ consul_index_header
      (kv_get list_prefix (mkGetReq "a" None None None None) store_a)
    = Some (toString (consulIndex store_a)).
Proof. repeat split. Qed.

(** ** Puts without tokens *)

(** C10, as worded, fails: a put with no token and no cas whose body has
    90000 bytes is refused by the store and ends in a 500. *)
Lemma put_refused_by_store :
  ¬ Stated.unconditional_rule store_empty (plain_put "a" big_text).
Proof.
  intros H. destruct (H eq_refl eq_refl eq_refl) as [Ht _].
  vm_compute in Ht. discriminate.
Qed.

Lemma put_unconditional_witness :
  (∃ e, kv (store_locked "release") !! "a" = Some e
        ∧ KVPair.session e = Some "s1")
  ∧ (kv_put (mkPutReq "a" None None (Some "7") None "new")
       (store_locked "release")).1 = Json true
  ∧ (∃ e', kv (kv_put (mkPutReq "a" None None (Some "7") None "new")
                 (store_locked "release")).2 !! "a" = Some e'
           ∧ KVPair.value e' = "new" ∧ KVPair.flags e' = Num 7)
  ∧ (kv_put (plain_put "a" big_text) (store_locked "release")).1 = TypeError.
Proof.
  destruct (put_unconditional (mkPutReq "a" None None (Some "7") None "new")
              (store_locked "release") eq_refl eq_refl eq_refl)
    as (Hiff & Hstored & _).
  destruct (put_unconditional (plain_put "a" big_text)
              (store_locked "release") eq_refl eq_refl eq_refl)
    as (_ & _ & Hrefused).
  assert (accepts_put (mkPutReq "a" None None (Some "7") None "new")
            (store_locked "release")) as Hacc by (by split).
  split; [eexists; split; [vm_compute; reflexivity|reflexivity]|].
  destruct (Hstored Hacc) as (e' & He' & Hvalue & _ & Hnumeral).
  split; [by apply Hiff|]. split.
  - exists e'. split; [exact He'|]. split; [exact Hvalue|].
    apply (Hnumeral 7); [unfold safe; lia|reflexivity].
  - apply Hrefused. intros [_ Hsize]. vm_compute in Hsize. discriminate.
Defined.

(** ** The remaining properties at concrete requests *)

Lemma kv_delete_effects_witness :
  (kv_delete "a" store_a).1 = Json true
  ∧ kv (kv_delete "a" store_a).2 !! "a" = None
  ∧ kv_delete (filler 3000) store_a = (TypeError, store_a).
Proof.
  destruct (kv_delete_effects "a" store_a) as (Hok & _ & Hheld).
  destruct (kv_delete_effects (filler 3000) store_a) as (_ & Hbad & _).
  destruct Hok as (Hreply & Hgone & _); [apply Hheld; by eexists|].
  split; [exact Hreply|]. split; [exact Hgone|].
  apply Hbad. vm_compute. reflexivity.
Defined.

Lemma kv_delete_idempotent_witness :
  kv_delete "zz" store_a = (Json true, store_a)
  ∧ kv_delete "a" (kv_delete "a" store_a).2
    = (Json true, (kv_delete "a" store_a).2).
Proof.
  destruct (kv_delete_idempotent "zz" store_a eq_refl) as [Habsent _].
  destruct (kv_delete_idempotent "a" store_a eq_refl) as [_ Htwice].
  split; [by apply Habsent|exact Htwice].
Defined.

Lemma put_then_get_witness :
  kv_get no_scan (plain_get "a") (kv_put (plain_put "a" "v") store_empty).2 =
  mkGetReply 200 (Some "2") [KVPair.mk 2 (Num 0) "a" 0 2 "v" None] None.
Proof.
  apply (put_then_get no_scan (plain_put "a" "v") store_empty). reflexivity.
Defined.

Lemma delete_then_get_witness :
  kv_get no_scan (mkGetReq "a" None (Some "2") (Some "1000") None)
    (kv_delete "a" store_a).2
  = mkGetReply 404 None [] None.
Proof.
  apply (delete_then_get no_scan
           (mkGetReq "a" None (Some "2") (Some "1000") None) store_a);
    reflexivity.
Defined.

Lemma put_lock_conflict_witness :
  kv_put (acquire_put "a" "s2" "x") (store_two_sessions "release")
  = (Json false, store_two_sessions "release")
  ∧ kv_put (release_put "a" "s2" "x") (store_two_sessions "release")
    = (Json false, store_two_sessions "release").
Proof.
  split.
  - eapply (put_lock_conflict (acquire_put "a" "s2" "x")
              (store_two_sessions "release") _ "s1" "s2");
      try reflexivity; try discriminate. by eexists.
  - eapply (put_lock_conflict (release_put "a" "s2" "x")
              (store_two_sessions "release") _ "s1" "s2");
      try reflexivity; try discriminate. by eexists.
Defined.

Lemma acquire_locks_out_others_witness :
  let st := run store_empty
    [SessionCreate "s1" 0 (mkCreateBody "n" (Some "delete") "10");
     SessionCreate "s2" 0 (mkCreateBody "m" (Some "delete") "10")] in
  let st1 := (kv_put (acquire_put "k" "s1" "v") st).2 in
  kv_put (acquire_put "k" "s2" "x") st1 = (Json false, st1)
  ∧ kv_put (acquire_put "k" "s3" "x") st1
    = (HTTPException 400 "Invalid session", st1)
  ∧ kv_put (acquire_put "k" (filler 3000) "x") st1 = (TypeError, st1).
Proof.
  intros st st1. subst st1. split; [|split].
  - rewrite (acquire_locks_out_others (acquire_put "k" "s1" "v")
               (acquire_put "k" "s2" "x") st "s1" "s2");
      try reflexivity; discriminate.
  - rewrite (acquire_locks_out_others (acquire_put "k" "s1" "v")
               (acquire_put "k" "s3" "x") st "s1" "s3");
      try reflexivity; discriminate.
  - rewrite (acquire_locks_out_others (acquire_put "k" "s1" "v")
               (acquire_put "k" (filler 3000) "x") st "s1" (filler 3000));
      try reflexivity; discriminate.
Defined.

Lemma holder_writes_again_witness :
  (kv_put (acquire_put "a" "s1" "v2") (store_locked "delete")).1 = Json true
  ∧ KVPair.session <$>
      kv (kv_put (acquire_put "a" "s1" "v2") (store_locked "delete")).2 !! "a"
    = Some (Some "s1")
  ∧ (kv_put (acquire_put "a" "s1" big_text) (store_locked "delete")).1
    ≠ Json true.
Proof.
  destruct (holder_writes_again (acquire_put "a" "s1" "v2")
              (store_locked "delete") (KVPair.mk 3 (Num 0) "a" 0 3 "v"
                                         (Some "s1")) "s1")
    as [Hiff Hheld]; try reflexivity; [by eexists|].
  destruct (holder_writes_again (acquire_put "a" "s1" big_text)
              (store_locked "delete") (KVPair.mk 3 (Num 0) "a" 0 3 "v"
                                         (Some "s1")) "s1")
    as [Hbig _]; try reflexivity; [by eexists|].
  assert (accepts_put (acquire_put "a" "s1" "v2") (store_locked "delete"))
    as Hacc by (by split).
  split; [by apply Hiff|]. split; [exact (Hheld Hacc)|].
  intros [_ Hsize]%Hbig. vm_compute in Hsize. discriminate.
Defined.


Lemma destroyed_session_gone_witness :
  session_renew "s1" 5 (session_destroy "s1" (store_locked "delete")).2
  = (HTTPException 404 "Session not found",
     (session_destroy "s1" (store_locked "delete")).2)
  ∧ kv_put (acquire_put "b" "s1" "x")
      (session_destroy "s1" (store_locked "delete")).2
    = (HTTPException 400 "Invalid session",
       (session_destroy "s1" (store_locked "delete")).2).
Proof.
  destruct (destroyed_session_gone (store_locked "delete") "s1"
              (Session.mk "s1" "n" "delete" (Num 10) 2 0) 5 eq_refl)
    as (Hrenew & _ & Hput).
  split; [exact Hrenew|]. by apply Hput.
Defined.

Lemma absent_session_stays_absent_witness :
  sessions
    (run (session_destroy "s1" (store_locked "release")).2
       [SessionRenew "s1" 7; KvPut (acquire_put "a" "s1" "x");
        SessionCreate "s2" 8 (mkCreateBody "m" (Some "release") "10");
        KvDelete "a"; SessionDestroy "s1"]) !! "s1" = None.
Proof.
  apply absent_session_stays_absent; [reflexivity|].
  repeat constructor.
Defined.

Lemma absent_key_stays_absent_witness :
  kv (run (kv_delete "a" (store_locked "delete")).2
        [KvPut (plain_put "b" "x"); SessionDestroy "s1"; KvDelete "a";
         SessionRenew "s1" 3]) !! "a" = None.
Proof.
  apply absent_key_stays_absent; [reflexivity|].
  repeat constructor.
Defined.

Lemma reachable_entry_shape_witness :
  ∃ e, kv (store_locked "delete") !! "a" = Some e
       ∧ entry_shape (store_locked "delete") "a" e.
Proof.
  eexists. split; [reflexivity|].
  apply reachable_entry_shape; [|reflexivity].
  eexists. reflexivity.
Defined.

Lemma reachable_session_shape_witness :
  ∃ s, sessions (store_locked "DeLeTe") !! "s1" = Some s
       ∧ session_shape (store_locked "DeLeTe") "s1" s.
Proof.
  eexists. split; [reflexivity|].
  apply reachable_session_shape; [|reflexivity].
  eexists. reflexivity.
Defined.

Lemma reachable_indices_unique_witness :
  indices_unique (store_locked "delete").
Proof. apply reachable_indices_unique. eexists. reflexivity. Defined.

Lemma get_reply_shape_witness :
  status (kv_get no_scan (plain_get (filler 3000)) store_a) = 500
  ∧ status (kv_get no_scan (plain_get "a") store_a) = 200
  ∧ consul_index_header (kv_get no_scan (plain_get "a") store_a) = Some "2".
Proof.
  destruct (get_reply_shape no_scan (plain_get (filler 3000)) store_a)
    as (_ & _ & [_ H500] & _).
  destruct (get_reply_shape no_scan (plain_get "a") store_a)
    as (_ & _ & _ & Hhdr & _).
  destruct Hhdr as (Hh & H200 & _); [by eexists|].
  split; [|split; [exact H200|exact Hh]].
  apply H500. right. split; [reflexivity|]. vm_compute. reflexivity.
Defined.

Lemma get_answers_at_once_witness :
  kv_get no_scan (mkGetReq "a" None (Some "2") (Some "1000") (Some "true"))
    store_a
  = mkGetReply 200 (Some "2") [KVPair.mk 2 (Num 0) "a" 0 2 "v" None] None
  ∧ kv_get no_scan (mkGetReq "a" None (Some "7") (Some "1000") None)
      store_a
    = mkGetReply 200 (Some "2") [KVPair.mk 2 (Num 0) "a" 0 2 "v" None] None.
Proof.
  split.
  - apply (get_answers_at_once no_scan
             (mkGetReq "a" None (Some "2") (Some "1000") (Some "true"))
             store_a); [reflexivity..|].
    left. reflexivity.
  - apply (get_answers_at_once no_scan
             (mkGetReq "a" None (Some "7") (Some "1000") None)
             store_a); [reflexivity..|].
    right. right. discriminate.
Defined.

Lemma header_as_index_witness :
  consul_index_header
    (kv_get no_scan (mkGetReq "a" None (Some "2") None None) store_a)
  = None
  ∧ consul_index_header
      (kv_get no_scan (mkGetReq "a" None (Some "4") None None)
         (store_locked "delete"))
    ≠ None.
Proof.
  split.
  - eapply (header_as_index no_scan store_a "a" _ None); reflexivity.
  - intros H.
    eapply (header_as_index no_scan (store_locked "delete") "a" _ None) in H;
      [|reflexivity].
    discriminate H.
Defined.

Lemma destroy_then_get_witness :
  kv_get no_scan (plain_get "a")
    (session_destroy "s1" (store_locked "delete")).2
  = mkGetReply 404 None [] None.
Proof.
  eapply (destroy_then_get no_scan (store_locked "delete") "s1" _
            (plain_get "a") _);
    reflexivity.
Defined.

Lemma renew_twice_witness :
  session_renew "s1" 9 (session_renew "s1" 5 (store_locked "delete")).2
  = (Json [Session.mk "s1" "n" "delete" (Num 10) 2 9],
     (session_renew "s1" 9 (store_locked "delete")).2).
Proof.
  apply (renew_twice (store_locked "delete") "s1"
           (Session.mk "s1" "n" "delete" (Num 10) 2 0) 5 9).
  reflexivity.
Defined.

Lemma create_then_destroy_witness :
  session_destroy "u9"
    (session_create "u9" 3 (mkCreateBody "n" (Some "Delete") "5")
       (store_locked "release")).2
  = (Json true, with_index (store_locked "release") 5).
Proof.
  apply (create_then_destroy "u9" 3 (mkCreateBody "n" (Some "Delete") "5")
           (store_locked "release")); [reflexivity..|].
  intros k e Hk Hheld.
  assert (map_Forall (λ _ e, KVPair.session e ≠ Some "u9")
            (kv (store_locked "release"))) as Hall.
  { apply (bool_decide_unpack _). vm_compute. exact I. }
  exact (Hall k e Hk Hheld).
Defined.

Lemma create_then_acquire_witness :
  (kv_put (acquire_put "b" "u9" "x")
     (session_create "u9" 3 (mkCreateBody "n" (Some "Delete") "5")
        (store_locked "release")).2).1 = Json true
  ∧ kv (kv_put (acquire_put "b" "u9" "x")
          (session_create "u9" 3 (mkCreateBody "n" (Some "Delete") "5")
             (store_locked "release")).2).2 !! "b"
    = Some (KVPair.mk 6 (Num 0) "b" 0 6 "x" (Some "u9")).
Proof.
  destruct (create_then_acquire "u9" 3 (mkCreateBody "n" (Some "Delete") "5")
              (acquire_put "b" "u9" "x") (store_locked "release"))
    as [Hiff Hstored]; try reflexivity.
  { intros e He. vm_compute in He. by injection He as <-. }
  assert (accepts_put (acquire_put "b" "u9" "x")
            (session_create "u9" 3 (mkCreateBody "n" (Some "Delete") "5")
               (store_locked "release")).2) as Hacc by (by split).
  split; [by apply Hiff|exact (Hstored Hacc)].
Defined.

Lemma put_flags_stored_witness :
  ∃ e', kv (kv_put (mkPutReq "a" None None (Some "42") None "v")
              store_empty).2 !! "a" = Some e'
    ∧ KVPair.flags e' = Num 42.
Proof.
  destruct (put_flags_stored (mkPutReq "a" None None (Some "42") None "v")
              store_empty eq_refl) as (e' & He' & _ & Hz & _).
  exists e'. split; [exact He'|]. apply (Hz 42); [|reflexivity].
  unfold safe. lia.
Defined.

Lemma put_cas_not_a_number_witness :
  (kv_put (cas_put "a" "latest" "w") store_a).1 ≠ Json true
  ∧ (kv_put (cas_put "a" "latest" "w") store_a).2 = store_a.
Proof.
  apply (put_cas_not_a_number (cas_put "a" "latest" "w") store_a "latest");
    [reflexivity|discriminate|reflexivity].
Defined.

(** ** The examples of the specification, run on the model *)

(** Lock, conflict, destroy under Delete: ["a"] is gone afterwards. *)
Example lock_conflict_destroy :
  let st1 := run store_empty
    [SessionCreate "s1" 0 (mkCreateBody "one" (Some "Delete") "30");
     SessionCreate "s2" 0 (mkCreateBody "two" (Some "Delete") "30")] in
  let put1 := kv_put (acquire_put "a" "s1" "v") st1 in
  let put2 := kv_put (acquire_put "a" "s2" "w") put1.2 in
  let gone := session_destroy "s1" put2.2 in
  put1.1 = Json true
  ∧ KVPair.session <$> kv put1.2 !! "a" = Some (Some "s1")
  ∧ put2.1 = Json false
  ∧ gone.1 = Json true
  ∧ kv gone.2 !! "a" = None.
Proof. repeat split. Qed.

(** Compare-and-swap twice with the same index: the second put fails. *)
Example cas_twice :
  let st1 := (kv_put (plain_put "b" "1") store_empty).2 in
  let put2 := kv_put (cas_put "b" "2" "2") st1 in
  let put3 := kv_put (cas_put "b" "2" "2") put2.2 in
  KVPair.modifyIndex <$> kv st1 !! "b" = Some 2
  ∧ put2.1 = Json true
  ∧ KVPair.modifyIndex <$> kv put2.2 !! "b" = Some 3
  ∧ put3.1 = Json false.
Proof. repeat split. Qed.

(** [parseInt] on a few query strings; the last one starts with a
    no-break space (U+00A0, the bytes C2 A0), which is white space. *)
Example parseInt_samples :
  parseInt "0" = Num 0 ∧ parseInt " -12px" = Num (-12)
  ∧ parseInt "0x1F" = Num 31 ∧ parseInt "10s" = Num 10
  ∧ parseInt "abc" = NaN ∧ parseInt "" = NaN
  ∧ parseInt (String "194" (String "160" "42")) = Num 42.
Proof. repeat split. Qed.

(** Writes the store refuses: a key of 3000 bytes, a body of 90000 bytes
    and a session name of 90000 bytes each end in a 500; the put and the
    create have taken an index by then, the delete has not. *)
Example store_refusals :
  (kv_put (plain_put (filler 3000) "v") store_empty).1 = TypeError
  ∧ consulIndex (kv_put (plain_put (filler 3000) "v") store_empty).2 = 2
  ∧ (kv_put (plain_put "a" big_text) store_empty).1 = TypeError
  ∧ consulIndex (kv_put (plain_put "a" big_text) store_empty).2 = 2
  ∧ (session_create "u1" 0 (mkCreateBody big_text (Some "delete") "10")
       store_empty).1 = TypeError
  ∧ consulIndex
      (session_create "u1" 0 (mkCreateBody big_text (Some "delete") "10")
         store_empty).2 = 2
  ∧ (kv_delete (filler 3000) store_empty).1 = TypeError
  ∧ consulIndex (kv_delete (filler 3000) store_empty).2 = 1
  ∧ status (kv_get no_scan (plain_get (filler 3000)) store_empty) = 500
  ∧ (session_renew (filler 3000) 0 store_empty).1 = TypeError.
Proof. vm_compute. repeat split. Qed.
